(** * JSON API Analyzer: the analysis pipeline and the JSON tree of [App.tsx]

    A shallow embedding of [src/api-analyzer/src/App.tsx]:
    - the response pipeline of [analyze] (headers, size, content-type aware
      parsing, outcome selection) as pure functions;
    - the [async] control flow of [analyze] (abort of the previous request,
      timeout timer, [try]/[catch]/[finally]) as a step function over the
      component state, one event per resumption of the function;
    - the [TreeNode]/[Value] components as a tree of mounted component
      instances, each with its own [open] hook state.

    Conventions.  A JavaScript string is the [string] of the bytes of its
    UTF-8 encoding, which is also what a string literal of this file
    holds: every text of Unicode characters has its [string] (module
    [Unicode] gives it from the code points), an unpaired surrogate has
    none.  A JavaScript number is a [JS.number]: [NaN], the two
    infinities, the two zeros, and the other finite numbers by the sign,
    digits and decimal exponent that [Number::toString] prints them from.
    Where the code holds an integer (an HTTP status, a count, an index) the
    embedding holds a [Z], and clock readings are taken in whole
    milliseconds.  The functions of the platform that the code
    calls on arbitrary text ([JSON.parse], [Number(string)]) are variables
    of the development. *)

From Stdlib Require Import ZArith String Ascii List Bool Lia.
From Stdlib Require Import DecimalString DecimalZ DecimalPos DecimalFacts.
From stdpp Require Import base gmap strings list.

Set Warnings "-register-all".
Local Open Scope string_scope.
Local Open Scope Z_scope.

(** ** Unicode text as UTF-8 bytes *)

Module Unicode.

(** The UTF-8 encoder (WHATWG Encoding, 4.1) on one code point that is
    not a surrogate. *)
Definition encode_point (cp : N) : string :=
  (if cp <? 0x80 then
     String (ascii_of_N cp) EmptyString
   else if cp <? 0x800 then
     String (ascii_of_N (0xC0 + cp / 0x40))
       (String (ascii_of_N (0x80 + cp mod 0x40)) EmptyString)
   else if cp <? 0x10000 then
     String (ascii_of_N (0xE0 + cp / 0x1000))
       (String (ascii_of_N (0x80 + (cp / 0x40) mod 0x40))
          (String (ascii_of_N (0x80 + cp mod 0x40)) EmptyString))
   else
     String (ascii_of_N (0xF0 + cp / 0x40000))
       (String (ascii_of_N (0x80 + (cp / 0x1000) mod 0x40))
          (String (ascii_of_N (0x80 + (cp / 0x40) mod 0x40))
             (String (ascii_of_N (0x80 + cp mod 0x40)) EmptyString))))%N.

(** The string of the text with code points [cps]. *)
Fixpoint encode (cps : list N) : string :=
  match cps with
  | [] => EmptyString
  | cp :: cps' => encode_point cp ++ encode cps'
  end.

(** Bytes of a code point in UTF-8. *)
Definition utf8_width (cp : N) : Z :=
  if (cp <? 0x80)%N then 1 else if (cp <? 0x800)%N then 2
  else if (cp <? 0x10000)%N then 3 else 4.

(** Code units of a code point in a JavaScript string (UTF-16): two, a
    surrogate pair, from U+10000 on. *)
Definition utf16_width (cp : N) : Z :=
  if (cp <? 0x10000)%N then 1 else 2.

Fixpoint utf8_size (cps : list N) : Z :=
  match cps with
  | [] => 0
  | cp :: cps' => utf8_width cp + utf8_size cps'
  end.

(** [s.length] of the text with code points [cps]. *)
Fixpoint utf16_size (cps : list N) : Z :=
  match cps with
  | [] => 0
  | cp :: cps' => utf16_width cp + utf16_size cps'
  end.

End Unicode.

(** ** Platform strings and numbers *)

Module JS.

(** [String.prototype.toLowerCase] on the characters up to U+00FF: A-Z,
    and the accented capitals U+00C0..U+00DE except the multiplication
    sign U+00D7, which are the byte 0xC3 followed by 0x80..0x9E (0x97 for
    the multiplication sign); the lower-case letter is 0x20 further.  The
    code lower-cases header names and the [content-type] value, and the
    characters of a header delivered by [fetch] are below U+0100. *)
Definition lower_byte (after_C3 : bool) (c : ascii) : ascii :=
  let n := N_of_ascii c in
  if ((0x41 <=? n) && (n <=? 0x5A) ||
      after_C3 && (0x80 <=? n) && (n <=? 0x9E) && negb (n =? 0x97))%N
  then ascii_of_N (n + 0x20) else c.

Fixpoint lower_from (after_C3 : bool) (s : string) : string :=
  match s with
  | EmptyString => EmptyString
  | String c s' =>
      String (lower_byte after_C3 c) (lower_from (N_of_ascii c =? 0xC3)%N s')
  end.

Definition toLowerCase (s : string) : string := lower_from false s.

(** [s.startsWith(needle)] *)
Fixpoint startsWith (s needle : string) {struct needle} : bool :=
  match needle with
  | EmptyString => true
  | String a needle' =>
      match s with
      | String b s' => Ascii.eqb a b && startsWith s' needle'
      | EmptyString => false
      end
  end.

(** [s.includes(needle)] *)
Fixpoint includes (s needle : string) : bool :=
  startsWith s needle ||
  match s with
  | EmptyString => false
  | String _ s' => includes s' needle
  end.

(** [new TextEncoder().encode(s).length]: the encoder emits the UTF-8
    bytes of the text, one per byte of its [string]. *)
Fixpoint utf8_length (s : string) : Z :=
  match s with
  | EmptyString => 0
  | String _ s' => 1 + utf8_length s'
  end.

(** Truthiness of a string: only the empty string is falsy. *)
Definition truthy (s : string) : bool :=
  match s with EmptyString => false | String _ _ => true end.

(** Number-to-string conversion of an integer that is printed without
    an exponent (an HTTP status, a count, an array index), as in a template
    literal or in [String(i)]: plain decimal digits. *)
Definition toString (n : Z) : string :=
  NilZero.string_of_int (Z.to_int n).

Fixpoint zeros (k : nat) : string :=
  match k with
  | O => EmptyString
  | S k' => String "0" (zeros k')
  end.

Fixpoint take (k : nat) (s : string) : string :=
  match k, s with
  | S k', String c r => String c (take k' r)
  | _, _ => EmptyString
  end.

Fixpoint drop (k : nat) (s : string) : string :=
  match k, s with
  | S k', String _ r => drop k' r
  | _, _ => s
  end.

(** Without the zeros at the end. *)
Fixpoint rstrip0 (s : string) : string :=
  match s with
  | EmptyString => EmptyString
  | String c r =>
      match rstrip0 r with
      | EmptyString => if (N_of_ascii c =? 48)%N then EmptyString
                       else String c EmptyString
      | r' => String c r'
      end
  end.

Fixpoint all_digits (s : string) : bool :=
  match s with
  | EmptyString => true
  | String c r =>
      let n := N_of_ascii c in ((48 <=? n) && (n <=? 57))%N && all_digits r
  end.

(** A JavaScript number.  [Dec negative digits point] is the finite
    number, other than zero, of value [0.digits * 10 ^ point] with that
    sign: [digits] and [point] are the [s] (in decimal, [k] digits) and
    the [n] of [Number::toString] (ECMA-262, 6.1.6.1.20), the shortest
    decimal that denotes the number, so 1.5 is [Dec false "15" 1] and
    1e21 is [Dec false "1" 22]. *)
Inductive number : Type :=
| NaN
| Infinity (negative : bool)
| Zero (negative : bool)
| Dec (negative : bool) (digits : string) (point : Z).

(** The digits of [Dec] as [Number::toString] chooses them: at least one,
    the first and the last one not 0. *)
Definition shortest (digits : string) : bool :=
  all_digits digits
  && match digits with
     | String c _ => negb (N_of_ascii c =? 48)%N
     | EmptyString => false
     end
  && String.eqb (rstrip0 digits) digits.

(** The numbers the embedding means: every [Dec] has its digits in the
    form above and its point in the range of the doubles, which reach from
    5e-324 ([point] -323) to 1.7976931348623157e308 ([point] 309). *)
Definition canonical (x : number) : bool :=
  match x with
  | Dec _ digits point =>
      shortest digits && (-323 <=? point) && (point <=? 309)
  | _ => true
  end.

(** The number of an integer. *)
Definition int (z : Z) : number :=
  match z with
  | Z0 => Zero false
  | Zpos p =>
      let d := toString (Zpos p) in
      Dec false (rstrip0 d) (Z.of_nat (String.length d))
  | Zneg p =>
      let d := toString (Zpos p) in
      Dec true (rstrip0 d) (Z.of_nat (String.length d))
  end.

(** [Number::toString] on the digits and the position of the point, steps
    6 to 10: an integer of at most 21 digits, a point inside the digits,
    a fraction with at most 6 zeros after the point, and the exponent
    form. *)
Definition digits_toString (d : string) (n : Z) : string :=
  let k := Z.of_nat (String.length d) in
  if (k <=? n) && (n <=? 21) then d ++ zeros (Z.to_nat (n - k))
  else if (0 <? n) && (n <=? 21)
  then take (Z.to_nat n) d ++ "." ++ drop (Z.to_nat n) d
  else if (-6 <? n) && (n <=? 0)
  then "0." ++ zeros (Z.to_nat (- n)) ++ d
  else
    let e := n - 1 in
    let exponent := (if e <? 0 then "-" else "+") ++ toString (Z.abs e) in
    match d with
    | String c EmptyString => String c ("e" ++ exponent)
    | String c r => String c ("." ++ r ++ "e" ++ exponent)
    | EmptyString => EmptyString
    end.

(** Number-to-string conversion, as in [String(x)], a template literal or
    a React text child. *)
Definition Number_toString (x : number) : string :=
  match x with
  | NaN => "NaN"
  | Infinity negative => (if negative then "-" else "") ++ "Infinity"
  | Zero _ => "0"
  | Dec negative d n => (if negative then "-" else "") ++ digits_toString d n
  end.

Definition isNaN (x : number) : bool :=
  match x with NaN => true | _ => false end.

(** [x > 0]; every comparison with [NaN] is false. *)
Definition gt0 (x : number) : bool :=
  match x with
  | Infinity false | Dec false _ _ => true
  | _ => false
  end.

(** An error object, as [fetch] and [Response.text] reject with
    ([TypeError], [DOMException]). *)
Record Error : Type := mkError { name : string; message : string }.

(** A plain object used as a string-keyed dictionary.  Assignment through
    a computed key creates or overwrites the own property, except for the
    key [__proto__]: there the inherited setter runs, and it ignores a
    string value. *)
Definition set_property (o : gmap string string) (k v : string)
  : gmap string string :=
  if String.eqb k "__proto__" then o else <[k := v]> o.

(** The names of the members of [Object.prototype] (ECMA-262, 20.1.3 and
    B.2.2), which every object created by [{}] inherits. *)
Definition Object_prototype : list string :=
  ["constructor"; "hasOwnProperty"; "isPrototypeOf"; "propertyIsEnumerable";
   "toLocaleString"; "toString"; "valueOf"; "__proto__";
   "__defineGetter__"; "__defineSetter__"; "__lookupGetter__";
   "__lookupSetter__"].

(** What reading [o[k]] gives: the value of the own property, a member of
    [Object.prototype] (a function, or the prototype itself), or
    [undefined]. *)
Inductive Property : Type :=
| Own (v : string)
| Inherited
| Undefined.

Definition inherited (k : string) : bool :=
  existsb (String.eqb k) Object_prototype.

Definition get (o : gmap string string) (k : string) : Property :=
  match o !! k with
  | Some v => Own v
  | None => if inherited k then Inherited else Undefined
  end.

End JS.

(** An integer where a number is expected is the number of that integer. *)
Coercion JS.int : Z >-> JS.number.

(** ** JSON values *)

(** What [JSON.parse] returns, and [undefined] (a [TreeNode] accepts any
    value).  An object lists its entries in the order of [Object.entries]. *)
Inductive value : Type :=
| JUndefined
| JNull
| JBool (b : bool)
| JNum (x : JS.number)
| JStr (s : string)
| JArr (items : list value)
| JObj (entries : list (string * value)).

(** [JSON.parse] either returns a value or throws a [SyntaxError] with a
    message. *)
Inductive ParseOutcome : Type :=
| Parsed (v : value)
| SyntaxError (message : string).

(** ** Data model of the analyzer *)

Inductive Method : Type := GET | HEAD.

Definition method_string (m : Method) : string :=
  match m with GET => "GET" | HEAD => "HEAD" end.

Record FetchSummary : Type := mkSummary {
  url : string;
  method : string;
  status : Z;
  statusText : string;
  timeMs : Z;
  contentType : option string;
  sizeBytes : option JS.number;
  date : option string
}.

Inductive AnalyzedResult : Type :=
| Success (summary : FetchSummary) (headers : gmap string string)
          (data : value) (rawText : string)
| Failure (summary : option FetchSummary)
          (headers : option (gmap string string))
          (error : string) (rawText : option string).

(** The part of a [Response] that [analyze] reads; [resp_headers] is the
    sequence of (name, value) pairs that [resp.headers.forEach] visits. *)
Record Response : Type := mkResponse {
  resp_status : Z;
  resp_statusText : string;
  resp_headers : list (string * string)
}.

(** [resp.ok]: the status is in the range 200-299. *)
Definition resp_ok (resp : Response) : bool :=
  (200 <=? resp_status resp) && (resp_status resp <=? 299).

(** ** The response pipeline of [analyze] (lines 137-190) *)

Section Pipeline.

Variable JSON_parse : string -> ParseOutcome.
Variable StringToNumber : string -> JS.number.

(** [Number(v)] for [v] a string or [undefined]. *)
Definition Number (v : option string) : JS.number :=
  match v with
  | None => JS.NaN
  | Some s => StringToNumber s
  end.

(** [resp.headers.forEach((v, k) => (headers[k.toLowerCase()] = v))] *)
Definition collect_headers (hs : list (string * string))
  : gmap string string :=
  fold_left (fun headers kv =>
               JS.set_property headers (JS.toLowerCase (fst kv)) (snd kv))
            hs ∅.

(** Lines 142-148. *)
Definition size_of (headers : gmap string string) (rawText : string)
  : option JS.number :=
  let fromHeader := Number (headers !! "content-length") in
  if negb (JS.isNaN fromHeader) && JS.gt0 fromHeader
  then Some fromHeader
  else if JS.truthy rawText
       then Some (JS.int (JS.utf8_length rawText))
       else None.

(** [headers["content-type"]?.toLowerCase().includes("json")], as a
    condition. *)
Definition declares_json (headers : gmap string string) : bool :=
  match headers !! "content-type" with
  | Some ct => JS.includes (JS.toLowerCase ct) "json"
  | None => false
  end.

(** Lines 150-165: the pair ([parsed], [parseErr]). *)
Definition parse_body (headers : gmap string string) (rawText : string)
  : value * option string :=
  if JS.truthy rawText && declares_json headers
  then match JSON_parse rawText with
       | Parsed v => (v, None)
       | SyntaxError m => (JNull, Some m)
       end
  else if JS.truthy rawText
       then match JSON_parse rawText with
            | Parsed v => (v, None)
            | SyntaxError _ => (JStr rawText, None)
            end
       else (JNull, None).

(** Lines 167-176. *)
Definition make_summary (url0 : string) (method0 : Method) (resp : Response)
           (elapsed : Z) (headers : gmap string string) (rawText : string)
  : FetchSummary :=
  {| url := url0;
     method := method_string method0;
     status := resp_status resp;
     statusText :=
       if JS.truthy (resp_statusText resp) then resp_statusText resp
       else if resp_ok resp then "OK" else "Error";
     timeMs := elapsed;
     contentType := headers !! "content-type";
     sizeBytes := size_of headers rawText;
     date := headers !! "date" |}.

(** [if (parseErr)]: [null] and the empty string are falsy. *)
Definition truthy_err (parseErr : option string) : bool :=
  match parseErr with
  | Some m => JS.truthy m
  | None => false
  end.

(** Lines 142-190: what [analyze] passes to [setResult] once the response
    and its body text are there. *)
Definition conclude (url0 : string) (method0 : Method) (resp : Response)
           (elapsed : Z) (headers : gmap string string) (rawText : string)
  : AnalyzedResult :=
  let '(parsed, parseErr) := parse_body headers rawText in
  let summary := make_summary url0 method0 resp elapsed headers rawText in
  if negb (resp_ok resp)
  then Failure (Some summary) (Some headers)
               ("Request failed with status " ++ JS.toString (resp_status resp))
               (Some rawText)
  else if truthy_err parseErr
       then Failure (Some summary) (Some headers)
                    ("Response is not valid JSON: " ++ default "" parseErr)
                    (Some rawText)
       else Success summary headers parsed rawText.

End Pipeline.

(** ** The control flow of [analyze] (lines 119-197)

    [analyze] is an [async] function: it runs to its first [await], and is
    resumed when the awaited promise settles.  The component state and the
    resumptions are a transition system: one [Event] per entry into the
    function body. *)

(** How an awaited promise settles. *)
Inductive Settled (A : Type) : Type :=
| Fulfilled (a : A)
| Rejected (e : JS.Error).
Arguments Fulfilled {A} a.
Arguments Rejected {A} e.

(** Where a suspended invocation waits. *)
Inductive Phase : Type :=
| AwaitFetch
| AwaitText (resp : Response) (elapsed : Z) (headers : gmap string string).

(** The variables a suspended invocation has captured. *)
Record Invocation : Type := mkInvocation {
  inv_url : string;
  inv_method : Method;
  inv_timeoutMs : Z;
  inv_started : Z;
  inv_phase : Phase
}.

(** The state that [analyze] reads and writes.  An [AbortController] is
    known by its identity, the number of controllers created before it. *)
Record App : Type := mkApp {
  result : option AnalyzedResult;       (* [useState] slot [result] *)
  loading : bool;                       (* [useState] slot [loading] *)
  controllerRef : option nat;           (* [controllerRef.current] *)
  aborted : gset nat;                   (* controllers whose signal has fired *)
  timers : gset nat;                    (* armed [setTimeout] callbacks, by the
                                           controller they abort *)
  pending : gmap nat Invocation;        (* suspended invocations, by controller *)
  created : nat
}.

Definition initial : App :=
  {| result := None; loading := false; controllerRef := None;
     aborted := ∅; timers := ∅; pending := ∅; created := 0 |}.

(** A small state-and-exception monad for the body of [analyze]. *)
Inductive Outcome (A : Type) : Type :=
| Normal (a : A)
| Thrown (e : JS.Error).
Arguments Normal {A} a.
Arguments Thrown {A} e.

Definition Eff (A : Type) : Type := App -> App * Outcome A.

Definition ret {A} (a : A) : Eff A := fun st => (st, Normal a).
Definition throw {A} (e : JS.Error) : Eff A := fun st => (st, Thrown e).
Definition bind {A B} (m : Eff A) (k : A -> Eff B) : Eff B :=
  fun st =>
    match m st with
    | (st', Normal a) => k a st'
    | (st', Thrown e) => (st', Thrown e)
    end.

#[global] Instance Eff_ret : MRet Eff := @ret.
#[global] Instance Eff_bind : MBind Eff := fun A B k m => bind m k.

(** How an entry into the body ends: at the next [await], or at the end of
    the function. *)
Inductive Next : Type :=
| Awaiting (ph : Phase)
| Finished.

(** [try { body } catch (e) { handler } finally { cleanup }].  A body that
    suspends at an [await] stays inside the [try] block: neither clause
    runs then. *)
Definition try_catch_finally (body : Eff Next) (handler : JS.Error -> Eff Next)
           (cleanup : Eff unit) : Eff Next :=
  fun st =>
    match body st with
    | (st1, Normal (Awaiting ph)) => (st1, Normal (Awaiting ph))
    | (st1, Normal Finished) =>
        match cleanup st1 with
        | (st2, Normal _) => (st2, Normal Finished)
        | (st2, Thrown e) => (st2, Thrown e)
        end
    | (st1, Thrown e) =>
        let '(st2, o) := handler e st1 in
        match cleanup st2 with
        | (st3, Normal _) => (st3, o)
        | (st3, Thrown e') => (st3, Thrown e')
        end
    end.

(** [await p] inside the function: the value, or the rejection thrown. *)
Definition await {A} (p : Settled A) : Eff A :=
  match p with
  | Fulfilled a => ret a
  | Rejected e => throw e
  end.

Definition setResult (r : option AnalyzedResult) : Eff unit := fun st =>
  ({| result := r; loading := loading st; controllerRef := controllerRef st;
      aborted := aborted st; timers := timers st; pending := pending st;
      created := created st |}, Normal tt).

Definition setLoading (b : bool) : Eff unit := fun st =>
  ({| result := result st; loading := b; controllerRef := controllerRef st;
      aborted := aborted st; timers := timers st; pending := pending st;
      created := created st |}, Normal tt).

(** [controller.abort()] *)
Definition abort (c : nat) : Eff unit := fun st =>
  ({| result := result st; loading := loading st;
      controllerRef := controllerRef st;
      aborted := {[c]} ∪ aborted st; timers := timers st;
      pending := pending st; created := created st |}, Normal tt).

(** [controllerRef.current?.abort()] *)
Definition abort_current : Eff unit := fun st =>
  match controllerRef st with
  | Some c => abort c st
  | None => (st, Normal tt)
  end.

(** [const controller = new AbortController(); controllerRef.current = controller] *)
Definition new_controller : Eff nat := fun st =>
  ({| result := result st; loading := loading st;
      controllerRef := Some (created st);
      aborted := aborted st; timers := timers st; pending := pending st;
      created := S (created st) |}, Normal (created st)).

(** [setTimeout(() => controller.abort(), timeoutMs)] and [clearTimeout(t)] *)
Definition setTimeout (c : nat) : Eff unit := fun st =>
  ({| result := result st; loading := loading st;
      controllerRef := controllerRef st; aborted := aborted st;
      timers := {[c]} ∪ timers st; pending := pending st;
      created := created st |}, Normal tt).

Definition clearTimeout (c : nat) : Eff unit := fun st =>
  ({| result := result st; loading := loading st;
      controllerRef := controllerRef st; aborted := aborted st;
      timers := timers st ∖ {[c]}; pending := pending st;
      created := created st |}, Normal tt).

(** Bookkeeping of the suspended invocations. *)
Definition set_pending (f : gmap nat Invocation -> gmap nat Invocation)
           (st : App) : App :=
  {| result := result st; loading := loading st;
     controllerRef := controllerRef st; aborted := aborted st;
     timers := timers st; pending := f (pending st); created := created st |}.

Section Analyze.

Variable JSON_parse : string -> ParseOutcome.
Variable StringToNumber : string -> JS.number.

(** Lines 142-190 inside the [try]: [clearTimeout(t)] and one of the three
    [setResult] calls. *)
Definition finish_try (c : nat) (inv : Invocation) (resp : Response)
           (elapsed : Z) (headers : gmap string string) (rawText : string)
  : Eff Next :=
  clearTimeout c;;
  setResult (Some (conclude JSON_parse StringToNumber
                            (inv_url inv) (inv_method inv)
                            resp elapsed headers rawText));;
  mret Finished.

(** Lines 130-141, resumed when the promise of [fetch] settles. *)
Definition after_fetch (c : nat) (inv : Invocation)
           (p : Settled Response) (now : Z) : Eff Next :=
  resp ← await p;
  let elapsed := now - inv_started inv in
  let headers := collect_headers (resp_headers resp) in
  match inv_method inv with
  | HEAD => finish_try c inv resp elapsed headers ""
  | GET => mret (Awaiting (AwaitText resp elapsed headers))
  end.

(** Line 141 onwards, resumed when the promise of [resp.text()] settles. *)
Definition after_text (c : nat) (inv : Invocation) (resp : Response)
           (elapsed : Z) (headers : gmap string string)
           (p : Settled string) : Eff Next :=
  rawText ← await p;
  finish_try c inv resp elapsed headers rawText.

(** Lines 191-193. *)
Definition catch_message (timeoutMs : Z) (e : JS.Error) : string :=
  if String.eqb (JS.name e) "AbortError"
  then "Request aborted after " ++ JS.toString timeoutMs ++ " ms"
  else JS.message e.

Definition catch_clause (inv : Invocation) (e : JS.Error) : Eff Next :=
  setResult (Some (Failure None None
                           (catch_message (inv_timeoutMs inv) e) None));;
  mret Finished.

(** Lines 194-196; the [finally] block runs when the function leaves the
    [try] statement, not when it suspends inside it. *)
Definition finally_clause : Eff unit := setLoading false.

(** One entry into the [try] statement of an invocation: [body] is the
    code of the [try] block from the point of entry to the next [await]
    or to its end.  The invocation is recorded as suspended, or dropped
    when the function has ended. *)
Definition resume (c : nat) (inv : Invocation) (body : Eff Next)
  : Eff Next :=
  fun st =>
    match try_catch_finally body (catch_clause inv) finally_clause st with
    | (st', Normal (Awaiting ph)) =>
        (set_pending (insert c {| inv_url := inv_url inv;
                                  inv_method := inv_method inv;
                                  inv_timeoutMs := inv_timeoutMs inv;
                                  inv_started := inv_started inv;
                                  inv_phase := ph |}) st',
         Normal (Awaiting ph))
    | (st', o) => (set_pending (delete c) st', o)
    end.

(** Lines 120-135: from the call to the suspension at [await fetch(...)].
    [url0], [method0] and [timeoutMs] are the hook state that the closure
    reads, [now] is the reading of [performance.now()]. *)
Definition analyze_start (url0 : string) (method0 : Method)
           (timeoutMs : Z) (now : Z) : Eff Next :=
  let inv := {| inv_url := url0; inv_method := method0;
                inv_timeoutMs := timeoutMs; inv_started := now;
                inv_phase := AwaitFetch |} in
  setLoading true;;
  setResult None;;
  abort_current;;
  c ← new_controller;
  resume c inv (setTimeout c;; mret (Awaiting AwaitFetch)).

(** The events of the component: a call of [analyze] with the hook state it
    reads and the clock reading, the settling of the promise an invocation
    waits for, and the firing of a timer.  (The page calls [analyze] from
    the button, which it disables while [loading] is set; [analyze] itself
    takes a call in any state, and is modelled so.) *)
Inductive Event : Type :=
| Invoke (url0 : string) (method0 : Method) (timeoutMs : Z) (now : Z)
| FetchSettled (c : nat) (p : Settled Response) (now : Z)
| TextSettled (c : nat) (p : Settled string)
| TimerFired (c : nat).

(** A promise bound to an aborted signal rejects with the [AbortError]
    of the signal; it cannot fulfil any more. *)
Definition consistent {A} (st : App) (c : nat) (p : Settled A) : bool :=
  if decide (c ∈ aborted st)
  then match p with
       | Rejected e => String.eqb (JS.name e) "AbortError"
       | Fulfilled _ => false
       end
  else true.

(** One event; [None] when the event cannot happen in the state. *)
Definition step (st : App) (ev : Event) : option App :=
  match ev with
  | Invoke url0 method0 timeoutMs now =>
      Some (fst (analyze_start url0 method0 timeoutMs now st))
  | FetchSettled c p now =>
      match pending st !! c with
      | Some inv =>
          match inv_phase inv with
          | AwaitFetch =>
              if consistent st c p
              then Some (fst (resume c inv (after_fetch c inv p now) st))
              else None
          | AwaitText _ _ _ => None
          end
      | None => None
      end
  | TextSettled c p =>
      match pending st !! c with
      | Some inv =>
          match inv_phase inv with
          | AwaitText resp elapsed headers =>
              if consistent st c p
              then Some (fst (resume c inv
                                     (after_text c inv resp elapsed headers p)
                                     st))
              else None
          | AwaitFetch => None
          end
      | None => None
      end
  | TimerFired c =>
      (* the timer leaves the armed set and its callback runs
         [controller.abort()] *)
      if decide (c ∈ timers st)
      then Some (fst ((clearTimeout c;; abort c) st))
      else None
  end.

Fixpoint run (st : App) (evs : list Event) : option App :=
  match evs with
  | [] => Some st
  | ev :: evs' =>
      match step st ev with
      | Some st' => run st' evs'
      | None => None
      end
  end.

Definition reachable (st : App) : Prop :=
  exists evs, run initial evs = Some st.

End Analyze.

(** ** The JSON tree: [TreeNode] and [Value] (lines 42-108) *)

Definition dquote : string := String "034"%char EmptyString.

Definition isArray (v : value) : bool :=
  match v with JArr _ => true | _ => false end.

(** [typeof v === "object" && v !== null && !Array.isArray(v)] *)
Definition isObject (v : value) : bool :=
  match v with JObj _ => true | _ => false end.

(** The text of the [span] that [Value] returns, by [typeof data]. *)
Definition Value (data : value) : string :=
  match data with
  | JStr s => dquote ++ s ++ dquote
  | JNum x => JS.Number_toString x
  | JBool b => if b then "true" else "false"
  | JNull => "null"
  | JArr _ | JObj _ => "object"
  | JUndefined => "undefined"
  end.

Record TreeProps : Type := mkProps {
  name : option string;
  data : value;
  level : option Z;
  collapsed : option bool
}.

(** The parameter default [level = 0]. *)
Definition level_of (p : TreeProps) : Z := default 0 (level p).

(** Line 54: the initial value of the [open] state,
    [collapsed ? false : level < 1]. *)
Definition init_open (p : TreeProps) : bool :=
  match collapsed p with
  | Some true => false
  | _ => level_of p <? 1
  end.

Section MapIndexed.
Context {A B : Type} (f : nat -> A -> B).

(** [l.map((v, i) => f(i, v))], counting from [i]. *)
Fixpoint mapi_from (i : nat) (l : list A) : list B :=
  match l with
  | [] => []
  | x :: l' => f i x :: mapi_from (S i) l'
  end.
End MapIndexed.

(** Lines 71-73: the [entries] of a branch; a leaf returns before them. *)
Definition entries (v : value) : list (string * value) :=
  match v with
  | JArr items => mapi_from (fun i x => (JS.toString (Z.of_nat i), x)) 0%nat items
  | JObj es => es
  | _ => []
  end.

(** Line 87: the props of the child elements. *)
Definition child_props (p : TreeProps) : list TreeProps :=
  map (fun kv => {| name := Some (fst kv); data := snd kv;
                    level := Some (level_of p + 1); collapsed := None |})
      (entries (data p)).

(** A mounted [TreeNode]: its props, its [open] state and the mounted
    children.  The children exist only while the node renders them, that is
    while it is an open branch (line 84). *)
Inductive Fiber : Type :=
| Node (props : TreeProps) (open : bool) (children : list Fiber).

(** The first render of an element: every component instance starts from
    its initial state. *)
Fixpoint mount_at (nm : option string) (d : value) (lv : option Z)
         (co : option bool) {struct d} : Fiber :=
  let p := {| name := nm; data := d; level := lv; collapsed := co |} in
  Node p (init_open p)
       (if init_open p
        then match d with
             | JArr items =>
                 mapi_from (fun i x => mount_at (Some (JS.toString (Z.of_nat i))) x
                                                (Some (level_of p + 1)) None)
                           0%nat items
             | JObj es =>
                 map (fun kv : string * value => let (k, x) := kv in
                                mount_at (Some k) x (Some (level_of p + 1)) None)
                     es
             | _ => []
             end
        else []).

Definition mount (p : TreeProps) : Fiber :=
  mount_at (name p) (data p) (level p) (collapsed p).

(** Line 56, [setOpen(!open)], at the node reached from the root by the
    child positions in [path]; React then renders that node again: a child
    that was rendered before keeps its instance, a child that appears is
    mounted, a child that disappears is unmounted and its state is gone.
    A leaf has no button. *)
Fixpoint toggle (path : list nat) (f : Fiber) : Fiber :=
  match f with
  | Node p o kids =>
      match path with
      | [] =>
          if isArray (data p) || isObject (data p)
          then Node p (negb o)
                    (if negb o then map mount (child_props p) else [])
          else f
      | i :: path' => Node p o (alter (toggle path') i kids)
      end
  end.

(** The [open] state of the instance at [path], if one is mounted there. *)
Fixpoint open_at (path : list nat) (f : Fiber) : option bool :=
  match f with
  | Node p o kids =>
      match path with
      | [] => Some o
      | i :: path' =>
          match kids !! i with
          | Some k => open_at path' k
          | None => None
          end
      end
  end.

(** What a [TreeNode] renders: rows, indented by [level * 14]. *)
Inductive Row : Type :=
| LeafRow (marginLeft : Z) (text : string)
| BranchRow (marginLeft : Z) (expanded : bool) (label : string) (meta : string).

(** Lines 62-68: the text of a leaf row. *)
Definition leaf_text (p : TreeProps) : string :=
  match name p with
  | Some n => n ++ ": " ++ Value (data p)
  | None => Value (data p)
  end.

(** Line 60. *)
Definition label_of (p : TreeProps) : string :=
  match name p with
  | Some n => n
  | None => if isArray (data p) then "[]"
            else if isObject (data p) then "{}" else ""
  end.

(** Line 82. *)
Definition meta_of (p : TreeProps) : string :=
  let n := JS.toString (Z.of_nat (length (entries (data p)))) in
  if isArray (data p) then "  [" ++ n ++ "]" else "  {" ++ n ++ "}".

Fixpoint render (f : Fiber) : list Row :=
  match f with
  | Node p o kids =>
      if negb (isArray (data p)) && negb (isObject (data p))
      then [LeafRow (level_of p * 14) (leaf_text p)]
      else BranchRow (level_of p * 14) o (label_of p) (meta_of p)
           :: (if o then flat_map render kids else [])
  end.

(** ** A reader of scalar JSON texts

    The JSON grammar (ECMA-404) for the texts of scalars, to state what
    parsing a displayed leaf gives back.  A number text is read as the
    decimal number that it denotes, or as an infinity or a zero when that
    number is beyond every double; [JSON.parse] returns the nearest double,
    which is that number when the text is the one that [Number::toString]
    prints for a double.  [Unsupported] marks the texts
    the reader does not decide: arrays and objects, and strings with a
    [\u] escape. *)

Module Reference.

Inductive Reading : Type :=
| Reads (v : value)
| Malformed
| Unsupported.

Definition is_ws (c : ascii) : bool :=
  let n := N_of_ascii c in
  ((n =? 32) || (n =? 9) || (n =? 10) || (n =? 13))%N.

Fixpoint skip_ws (s : string) : string :=
  match s with
  | String c r => if is_ws c then skip_ws r else s
  | EmptyString => EmptyString
  end.

Definition all_ws (s : string) : bool :=
  match skip_ws s with EmptyString => true | String _ _ => false end.

Definition is_digit (c : ascii) : bool :=
  let n := N_of_ascii c in ((48 <=? n) && (n <=? 57))%N.

(** The longest prefix of digits, and what follows it. *)
Fixpoint span_digits (s : string) : string * string :=
  match s with
  | String c r =>
      if is_digit c
      then let (ds, rest) := span_digits r in (String c ds, rest)
      else (EmptyString, s)
  | EmptyString => (EmptyString, EmptyString)
  end.

(** The character a two-character escape stands for. *)
Definition unescape (e : ascii) : option ascii :=
  let n := N_of_ascii e in
  if (n =? 34)%N then Some e                      (* quote *)
  else if (n =? 92)%N then Some e                 (* backslash *)
  else if (n =? 47)%N then Some e                 (* slash *)
  else if (n =? 98)%N then Some (ascii_of_N 8)    (* b *)
  else if (n =? 102)%N then Some (ascii_of_N 12)  (* f *)
  else if (n =? 110)%N then Some (ascii_of_N 10)  (* n *)
  else if (n =? 114)%N then Some (ascii_of_N 13)  (* r *)
  else if (n =? 116)%N then Some (ascii_of_N 9)   (* t *)
  else None.

Inductive Chars : Type :=
| Closed (content rest : string)
| BadChars
| EscapedUnit.

Definition push (c : ascii) (r : Chars) : Chars :=
  match r with
  | Closed content rest => Closed (String c content) rest
  | other => other
  end.

(** The characters of a string literal after its opening quote, up to the
    closing quote. *)
Fixpoint read_chars (s : string) : Chars :=
  match s with
  | EmptyString => BadChars
  | String c r =>
      let n := N_of_ascii c in
      if (n =? 34)%N then Closed EmptyString r
      else if (n =? 92)%N
      then match r with
           | String e r' =>
               match unescape e with
               | Some d => push d (read_chars r')
               | None => if (N_of_ascii e =? 117)%N then EscapedUnit
                         else BadChars
               end
           | EmptyString => BadChars
           end
      else if (n <? 32)%N then BadChars
      else push c (read_chars r)
  end.

(** The number of leading zeros, and what follows them. *)
Fixpoint lstrip0 (s : string) : nat * string :=
  match s with
  | String c r =>
      if (N_of_ascii c =? 48)%N
      then let (z, rest) := lstrip0 r in (S z, rest)
      else (O, s)
  | EmptyString => (O, EmptyString)
  end.

(** The number of value [0.ds * 10 ^ point], for digits [ds]: infinite
    from 1e309 on, which is above every double, and zero below 1e-324,
    which is less than half the least double. *)
Definition decimal (negative : bool) (ds : string) (point : Z) : JS.number :=
  let (z, d) := lstrip0 ds in
  match d with
  | EmptyString => JS.Zero negative
  | String _ _ =>
      let n := point - Z.of_nat z in
      if 309 <? n then JS.Infinity negative
      else if n <? -323 then JS.Zero negative
      else JS.Dec negative (JS.rstrip0 d) n
  end.

(** An optional fraction: a point and at least one digit. *)
Definition read_fraction (s : string) : option (string * string) :=
  match s with
  | String c r =>
      if (N_of_ascii c =? 46)%N
      then let (ds, rest) := span_digits r in
           match ds with
           | EmptyString => None
           | String _ _ => Some (ds, rest)
           end
      else Some (EmptyString, s)
  | EmptyString => Some (EmptyString, s)
  end.

(** An optional exponent: [e] or [E], an optional sign and at least one
    digit. *)
Definition read_exponent (s : string) : option (Z * string) :=
  match s with
  | String c r =>
      if ((N_of_ascii c =? 101) || (N_of_ascii c =? 69))%N
      then
        let (negative, body) :=
          match r with
          | String g r' =>
              if (N_of_ascii g =? 45)%N then (true, r')
              else if (N_of_ascii g =? 43)%N then (false, r')
              else (false, r)
          | EmptyString => (false, r)
          end in
        let (ds, rest) := span_digits body in
        match ds, NilEmpty.uint_of_string ds with
        | String _ _, Some u =>
            Some (if negative then - Z.of_uint u else Z.of_uint u, rest)
        | _, _ => None
        end
      else Some (0, s)
  | EmptyString => Some (0, s)
  end.

Definition read_number (s : string) : Reading :=
  let (negative, body) :=
    match s with
    | String c r => if (N_of_ascii c =? 45)%N then (true, r) else (false, s)
    | EmptyString => (false, s)
    end in
  let (ds, rest) := span_digits body in
  match ds with
  | EmptyString => Malformed
  | String d ds' =>
      if (N_of_ascii d =? 48)%N && negb (String.eqb ds' "") then Malformed
      else
        match read_fraction rest with
        | None => Malformed
        | Some (fs, rest') =>
            match read_exponent rest' with
            | None => Malformed
            | Some (e, rest'') =>
                if all_ws rest''
                then Reads (JNum (decimal negative (ds ++ fs)
                                    (Z.of_nat (String.length ds) + e)))
                else Malformed
            end
        end
  end.

Definition read_name (lit : string) (v : value) (s : string) : Reading :=
  if JS.startsWith s lit
  then if all_ws (String.substring (String.length lit)
                                   (String.length s - String.length lit) s)
       then Reads v else Malformed
  else Malformed.

Definition read (text : string) : Reading :=
  match skip_ws text with
  | EmptyString => Malformed
  | String c r as s =>
      let n := N_of_ascii c in
      if (n =? 34)%N
      then match read_chars r with
           | Closed content rest =>
               if all_ws rest then Reads (JStr content) else Malformed
           | BadChars => Malformed
           | EscapedUnit => Unsupported
           end
      else if ((n =? 91) || (n =? 123))%N then Unsupported
      else if (n =? 45)%N || is_digit c then read_number s
      else if (n =? 110)%N then read_name "null" JNull s
      else if (n =? 116)%N then read_name "true" (JBool true) s
      else if (n =? 102)%N then read_name "false" (JBool false) s
      else Malformed
  end.

End Reference.

(** ** Sample platform functions

    Concrete instances of the two variables, to run the development on
    inputs.  [JSON_parse] knows the scalar texts of [Reference.read] and
    reports every other text as an error; [StringToNumber] knows the empty
    string, the number texts of JSON and the decimal integers with zeros
    in front. *)

Module Sample.

Definition JSON_parse (s : string) : ParseOutcome :=
  match Reference.read s with
  | Reference.Reads v => Parsed v
  | _ => SyntaxError "Unexpected token in JSON"
  end.

Definition StringToNumber (s : string) : JS.number :=
  match s with
  | EmptyString => JS.int 0
  | _ => match Reference.read_number s with
         | Reference.Reads (JNum x) => x
         | _ =>
             match NilZero.int_of_string s with
             | Some d => JS.int (Z.of_int d)
             | None => JS.NaN
             end
         end
  end.

(** The [DOMException] of an aborted signal, and a network failure. *)
Definition abortError : JS.Error :=
  {| JS.name := "AbortError"; JS.message := "signal is aborted without reason" |}.
Definition networkError : JS.Error :=
  {| JS.name := "TypeError"; JS.message := "Failed to fetch" |}.

(** Two responses that declare JSON. *)
Definition json_headers : list (string * string) :=
  [("content-type", "application/json")].
Definition resp404 : Response :=
  {| resp_status := 404; resp_statusText := "Not Found";
     resp_headers := json_headers |}.
Definition resp200 : Response :=
  {| resp_status := 200; resp_statusText := "OK";
     resp_headers := json_headers |}.

Definition conclude := conclude JSON_parse StringToNumber.
Definition make_summary := make_summary StringToNumber.
Definition step := step JSON_parse StringToNumber.
Definition run := run JSON_parse StringToNumber.

(** Two calls in a row, and the rejection that the first [fetch] then
    delivers. *)
Definition two_calls : list Event :=
  [Invoke "https://host/a" GET 15000 0; Invoke "https://host/b" GET 15000 10].
Definition first_settles : Event :=
  FetchSettled 0%nat (Rejected abortError) 11.

(** One request in flight, and a second call while it is. *)
Definition first_pending : App :=
  fst (analyze_start "https://host/a" GET 15000 0 initial).
Definition second_pending : App :=
  fst (analyze_start "https://host/b" GET 15000 10 first_pending).

(** The first invocation, and the state once its [fetch] has rejected
    after the second call. *)
Definition first_invocation : Invocation :=
  {| inv_url := "https://host/a"; inv_method := GET;
     inv_timeoutMs := 15000; inv_started := 0; inv_phase := AwaitFetch |}.
Definition first_rejected : App :=
  fst (resume 0%nat first_invocation
              (after_fetch JSON_parse StringToNumber 0%nat first_invocation
                           (Rejected abortError) 11)
              second_pending).

(** The state after one call whose [fetch] has failed. *)
Definition first_failed : App :=
  fst (resume 0%nat first_invocation
              (after_fetch JSON_parse StringToNumber 0%nat first_invocation
                           (Rejected networkError) 40)
              first_pending).

(** The object [{a: 1, b: {c: 2}}]. *)
Definition nested : value :=
  JObj [("a", JNum 1); ("b", JObj [("c", JNum 2)])].

Definition root (d : value) : TreeProps :=
  {| name := None; data := d; level := None; collapsed := None |}.

(** Two strings that a JSON body can hold: [say "hi"], and a backslash
    followed by the letter n. *)
Definition quoted : string := "say " ++ dquote ++ "hi" ++ dquote.
Definition backslash_n : string := String "092" (String "n" EmptyString).
Definition line_feed : string := String "010" EmptyString.

(** Its tree after a click on the button of [b]. *)
Definition b_expanded : Fiber := toggle [1%nat] (mount (root nested)).

End Sample.

(** ** Notions for the statements *)

(** A content type "contains json, case-insensitively": somewhere in it the
    four letters follow one another, each in either case. *)
Definition mentions_json (ct : string) : Prop :=
  exists pre post j s o n,
    ct = pre ++ String j (String s (String o (String n post))) /\
    (j = "j" \/ j = "J")%char /\ (s = "s" \/ s = "S")%char /\
    (o = "o" \/ o = "O")%char /\ (n = "n" \/ n = "N")%char.

(** An invocation is live while it is suspended and its signal has not
    fired. *)
Definition live (st : App) (c : nat) : Prop :=
  is_Some (pending st !! c) /\ c ∉ aborted st.

(** What every reachable state satisfies: controllers are numbered below
    [created], and a live invocation is the one of [controllerRef]. *)
Record consistent_state (st : App) : Prop := {
  cs_pending : forall c, is_Some (pending st !! c) -> (c < created st)%nat;
  cs_current : forall c, controllerRef st = Some c -> (c < created st)%nat;
  cs_aborted : forall c, c ∈ aborted st -> (c < created st)%nat;
  cs_timers : forall c, c ∈ timers st -> (c < created st)%nat;
  cs_live : forall c, live st c -> controllerRef st = Some c
}.

(** The events that resume the invocation of controller [c]. *)
Definition settles (c : nat) (ev : Event) : Prop :=
  (exists p now, ev = FetchSettled c p now) \/ (exists p, ev = TextSettled c p).


(** The props of the instance at [path], if one is mounted there. *)
Fixpoint props_at (path : list nat) (f : Fiber) : option TreeProps :=
  match f with
  | Node p o kids =>
      match path with
      | [] => Some p
      | i :: path' =>
          match kids !! i with
          | Some k => props_at path' k
          | None => None
          end
      end
  end.

(** Structural independence, in the words of the specification: a toggle
    at [p] leaves the [open] state at every other position as it was. *)
Definition toggle_leaves_others (f : Fiber) : Prop :=
  forall p q, p <> q -> open_at q (toggle p f) = open_at q f.

(** A string whose characters all stand for themselves inside a JSON
    string literal: no quote, no backslash, no control character. *)
Fixpoint plain (s : string) : bool :=
  match s with
  | EmptyString => true
  | String c r =>
      let n := N_of_ascii c in
      (32 <=? n)%N && negb (n =? 34)%N && negb (n =? 92)%N && plain r
  end.

(** The parts of a number text (ECMA-404): what may follow a run of
    digits, the fraction of digits [fs] (none when [fs] is empty) and the
    exponent [ex] as [Number::toString] writes it. *)
Definition ends_digits (rest : string) : Prop :=
  match rest with
  | String c _ => Reference.is_digit c = false
  | EmptyString => True
  end.

Definition frac_text (fs : string) : string :=
  match fs with EmptyString => EmptyString | String _ _ => "." ++ fs end.

Definition exp_text (ex : option Z) : string :=
  match ex with
  | None => EmptyString
  | Some e => "e" ++ (if e <? 0 then "-" else "+") ++ JS.toString (Z.abs e)
  end.

(** ** More of the platform: [toFixed] and [trim] *)

Module Platform.

Fixpoint zeros (k : nat) : string :=
  match k with
  | O => EmptyString
  | S k' => String "0" (zeros k')
  end.

(** The last steps of [Number.prototype.toFixed]: the digits [m] of the
    scaled integer, padded with zeros to more than [f] digits, with the
    point before the last [f] of them. *)
Definition place_point (f : nat) (m : string) : string :=
  match f with
  | O => m
  | S _ =>
      let k := String.length m in
      let m' := if (k <=? f)%nat then zeros (f + 1 - k) ++ m else m in
      let k' := String.length m' in
      String.substring 0 (k' - f) m' ++ "." ++ String.substring (k' - f) f m'
  end.

(** The integer [n] for which [n / 10^f] is nearest to [num / den], the
    larger one of two; for [0 <= num] and [0 < den]. *)
Definition scaled (num den : Z) (f : nat) : Z :=
  (2 * num * 10 ^ Z.of_nat f + den) / (2 * den).

(** [(num / den).toFixed(f)] for integers [num] and [0 < den], where the
    quotient is exact (a division by a power of two is). *)
Definition toFixed (num den : Z) (f : nat) : string :=
  (if num <? 0 then "-" else "")
    ++ place_point f (JS.toString (scaled (Z.abs num) den f)).

(** The white space and the line terminators that
    [String.prototype.trim] removes (ECMA-262, 12.2 and 12.3), as code
    points: TAB, LF, VT, FF, CR, SP, NBSP, U+1680, U+2000..U+200A, U+2028,
    U+2029, U+202F, U+205F, U+3000 and U+FEFF. *)
Definition white_space : list N :=
  [0x9; 0xA; 0xB; 0xC; 0xD; 0x20; 0xA0; 0x1680;
   0x2000; 0x2001; 0x2002; 0x2003; 0x2004; 0x2005; 0x2006; 0x2007;
   0x2008; 0x2009; 0x200A; 0x2028; 0x2029; 0x202F; 0x205F; 0x3000;
   0xFEFF]%N.

(** The number of bytes of the white-space character that [s] starts
    with, 0 when it starts with none. *)
Definition space_width (s : string) : nat :=
  match List.find (fun cp => JS.startsWith s (Unicode.encode_point cp))
                  white_space with
  | Some cp => String.length (Unicode.encode_point cp)
  | None => O
  end.

(** [trimStart], with [skip] bytes of a white-space character still to
    pass. *)
Fixpoint trimStart_from (skip : nat) (s : string) : string :=
  match s with
  | String c r =>
      match skip with
      | S k => trimStart_from k r
      | O => match space_width s with
             | S w => trimStart_from w r
             | O => s
             end
      end
  | EmptyString => EmptyString
  end.

Definition trimStart (s : string) : string := trimStart_from 0 s.

(** The number of bytes of the white space that [s] ends with: [acc]
    counts the bytes of the white space passed since the last other
    character. *)
Fixpoint trailing (skip acc : nat) (s : string) : nat :=
  match s with
  | String c r =>
      match skip with
      | S k => trailing k acc r
      | O => match space_width s with
             | S w => trailing w (acc + S w) r
             | O => trailing 0 0 r
             end
      end
  | EmptyString => acc
  end.

Definition trimEnd (s : string) : string :=
  JS.take (String.length s - trailing 0 0 s) s.

Definition trim (s : string) : string := trimEnd (trimStart s).

End Platform.

(** ** The summary panel of [App] (lines 32-40 and 228-310) *)

(** The text of a table cell; [Dash] is the placeholder, an em dash. *)
Inductive Cell : Type :=
| Dash
| Text (s : string).

(** Line 32. *)
Definition formatMs (ms : Z) : string := Platform.toFixed ms 1 0 ++ " ms".

(** Lines 33-40, on a size that is an integer; [bytes == null] holds for
    [null] and [undefined]. *)
Definition formatBytes (bytes : option Z) : Cell :=
  match bytes with
  | None => Dash
  | Some b =>
      if b <? 1024 then Text (JS.toString b ++ " B")
      else if b <? 1024 * 1024
           then Text (Platform.toFixed b 1024 1 ++ " KB")
           else Text (Platform.toFixed b (1024 * 1024) 2 ++ " MB")
  end.

Definition result_summary (r : AnalyzedResult) : option FetchSummary :=
  match r with
  | Success summary _ _ _ => Some summary
  | Failure summary _ _ _ => summary
  end.

(** Line 248: [result.ok ? result.summary.url : result.summary?.url ?? url],
    with [url_input] the text of the input field. *)
Definition url_cell (r : AnalyzedResult) (url_input : string) : string :=
  match r with
  | Success summary _ _ _ => url summary
  | Failure (Some summary) _ _ _ => url summary
  | Failure None _ _ _ => url_input
  end.

(** Line 252. *)
Definition method_cell (r : AnalyzedResult) : string :=
  match r with
  | Success summary _ _ _ => method summary
  | Failure (Some summary) _ _ _ => method summary
  | Failure None _ _ _ => "GET"
  end.

(** Lines 257-263: the class and the text of the status, or the dash. *)
Definition status_cell (r : AnalyzedResult) : option (string * string) :=
  match result_summary r with
  | Some summary =>
      Some (if (200 <=? status summary) && (status summary <? 300)
            then "status-ok" else "status-bad",
            JS.toString (status summary) ++ " " ++ statusText summary)
  | None => None
  end.

(** Line 268. *)
Definition time_cell (r : AnalyzedResult) : Cell :=
  match result_summary r with
  | Some summary => Text (formatMs (timeMs summary))
  | None => Dash
  end.

(** Line 272. *)
Definition contentType_cell (r : AnalyzedResult) : Cell :=
  match result_summary r with
  | Some summary =>
      match contentType summary with Some ct => Text ct | None => Dash end
  | None => Dash
  end.

(** Lines 298-303: the tree panel, at its first render. *)
Definition tree_panel (r : AnalyzedResult) : option Fiber :=
  match r with
  | Success _ _ d _ =>
      Some (mount {| name := None; data := d; level := None;
                     collapsed := None |})
  | Failure _ _ _ _ => None
  end.

(** Lines 305-310: the error panel. *)
Definition error_panel (r : AnalyzedResult) : option string :=
  match r with
  | Success _ _ _ _ => None
  | Failure _ _ error _ => Some error
  end.

(** Line 228: [disabled={loading || !url.trim()}]. *)
Definition button_disabled (loading0 : bool) (url_input : string) : bool :=
  loading0 || negb (JS.truthy (Platform.trim url_input)).

(** The component as the page drives it: a call of [analyze] comes from a
    click on the button, which takes none while it is disabled. *)
Definition click_step (JSON_parse : string -> ParseOutcome)
           (StringToNumber : string -> JS.number)
           (st : App) (ev : Event) : option App :=
  match ev with
  | Invoke url0 _ _ _ =>
      if button_disabled (loading st) url0 then None
      else step JSON_parse StringToNumber st ev
  | _ => step JSON_parse StringToNumber st ev
  end.

Fixpoint click_run (JSON_parse : string -> ParseOutcome)
         (StringToNumber : string -> JS.number)
         (st : App) (evs : list Event) : option App :=
  match evs with
  | [] => Some st
  | ev :: evs' =>
      match click_step JSON_parse StringToNumber st ev with
      | Some st' => click_run JSON_parse StringToNumber st' evs'
      | None => None
      end
  end.

Definition is_invoke (ev : Event) : bool :=
  match ev with Invoke _ _ _ _ => true | _ => false end.

(** The invocation of controller [c] has called [fetch] and waits for it
    to settle. *)
Definition awaits_fetch (st : App) (c : nat) : Prop :=
  exists inv, pending st !! c = Some inv /\ inv_phase inv = AwaitFetch.

(** ** Notions for the tree *)

(** The mounted instance at [path]. *)
Fixpoint node_at (path : list nat) (f : Fiber) : option Fiber :=
  match path with
  | [] => Some f
  | i :: path' =>
      match f with
      | Node _ _ kids =>
          match kids !! i with
          | Some k => node_at path' k
          | None => None
          end
      end
  end.

(** The value and the key that [path] leads to inside a JSON value, by the
    positions of [entries]. *)
Fixpoint entry_at (path : list nat) (nm : option string) (v : value)
  : option (option string * value) :=
  match path with
  | [] => Some (nm, v)
  | i :: path' =>
      match entries v !! i with
      | Some kv => entry_at path' (Some (fst kv)) (snd kv)
      | None => None
      end
  end.

(** The letters of a header name made small, by the alphabet: the
    letter at the position of [c] among the capitals, and [c] itself when
    it is no capital. *)
Definition capitals : string := "ABCDEFGHIJKLMNOPQRSTUVWXYZ".
Definition smalls : string := "abcdefghijklmnopqrstuvwxyz".

Fixpoint small_letter (upper lower : string) (c : ascii) : ascii :=
  match upper, lower with
  | String a upper', String b lower' =>
      if Ascii.eqb c a then b else small_letter upper' lower' c
  | _, _ => c
  end.

Fixpoint fold_name (n : string) : string :=
  match n with
  | EmptyString => EmptyString
  | String c n' => String (small_letter capitals smalls c) (fold_name n')
  end.

Fixpoint has_capital (k : string) : bool :=
  match k with
  | EmptyString => false
  | String c k' => JS.includes capitals (String c EmptyString) || has_capital k'
  end.

(** A header name, as [fetch] delivers it, is a token of HTTP: its
    characters are of the ASCII range. *)
Fixpoint ascii_name (n : string) : bool :=
  match n with
  | EmptyString => true
  | String c n' => (N_of_ascii c <? 128)%N && ascii_name n'
  end.

(** The header value that the last pair of [hs] carries whose name is [k]
    when its letters are made small. *)
Fixpoint last_named (k : string) (hs : list (string * string))
  : option string :=
  match hs with
  | [] => None
  | nv :: rest =>
      match last_named k rest with
      | Some v => Some v
      | None => if String.eqb (fold_name (fst nv)) k
                then Some (snd nv) else None
      end
  end.

(** With the button, the component is idle, or waits for the one invocation
    of the controller in [controllerRef]. *)
Definition one_in_flight (st : App) : Prop :=
  (loading st = false /\ pending st = ∅)
  \/ (loading st = true /\ result st = None /\
      exists c inv, controllerRef st = Some c /\ pending st = {[c := inv]}).

(** A tree of instances that React can hold for the element with props [p]:
    the root instance has these props, a closed node has no mounted
    children, and an open node has one mounted child per child element. *)
Fixpoint mounted_from (p : TreeProps) (f : Fiber) {struct f} : Prop :=
  match f with
  | Node q o kids =>
      q = p /\
      if o
      then (fix all (ps : list TreeProps) (ks : list Fiber) {struct ks} : Prop :=
              match ks, ps with
              | [], [] => True
              | k :: ks', cp :: ps' => mounted_from cp k /\ all ps' ks'
              | _, _ => False
              end) (child_props p) kids
      else kids = []
  end.

Definition row_margin (r : Row) : Z :=
  match r with
  | LeafRow m _ => m
  | BranchRow m _ _ _ => m
  end.

(** A text of white space only: one white-space character after the
    other, to the end ([skip] bytes of the current one still to pass). *)
Fixpoint all_space_from (skip : nat) (s : string) : bool :=
  match s with
  | EmptyString => true
  | String c r =>
      match skip with
      | S k => all_space_from k r
      | O => match Platform.space_width s with
             | S w => all_space_from w r
             | O => false
             end
      end
  end.

Definition all_space (s : string) : bool := all_space_from 0 s.

(** * Properties of the response pipeline *)

Lemma resp_ok_range (resp : Response) :
  resp_ok resp = true <-> 200 <= resp_status resp <= 299.
Proof. unfold resp_ok. rewrite andb_true_iff, !Z.leb_le. tauto. Qed.

Lemma truthy_nonempty (s : string) : JS.truthy s = true <-> s <> "".
Proof. destruct s; simpl; split; congruence. Qed.

(** The three exits of [conclude], by the two tests of lines 180 and 185. *)
Lemma conclude_cases JSON_parse StringToNumber url0 method0 resp elapsed
      headers rawText :
  conclude JSON_parse StringToNumber url0 method0 resp elapsed headers rawText =
  let summary :=
    make_summary StringToNumber url0 method0 resp elapsed headers rawText in
  let recorded := parse_body JSON_parse headers rawText in
  if negb (resp_ok resp)
  then Failure (Some summary) (Some headers)
               ("Request failed with status " ++ JS.toString (resp_status resp))
               (Some rawText)
  else if truthy_err (snd recorded)
       then Failure (Some summary) (Some headers)
                    ("Response is not valid JSON: " ++ default "" (snd recorded))
                    (Some rawText)
       else Success summary headers (fst recorded) rawText.
Proof.
  unfold conclude. destruct (parse_body JSON_parse headers rawText); reflexivity.
Qed.

Lemma append_cons (c : ascii) (s t : string) :
  String c s ++ t = String c (s ++ t).
Proof. reflexivity. Qed.

Lemma append_nil (t : string) : "" ++ t = t.
Proof. reflexivity. Qed.

Lemma startsWith_app (s n : string) :
  JS.startsWith s n = true <-> exists post, s = n ++ post.
Proof.
  revert s. induction n as [|c n IH]; intros s; simpl.
  - split; [intros _; exists s; reflexivity | reflexivity].
  - destruct s as [|d s].
    + split; [discriminate | intros [post H]; discriminate].
    + rewrite andb_true_iff, Ascii.eqb_eq, IH. split.
      * intros [-> [post ->]]. exists post. reflexivity.
      * intros [post H]. rewrite append_cons in H. injection H as -> ->. eauto.
Qed.

Lemma includes_app (s n : string) :
  JS.includes s n = true <-> exists pre post, s = pre ++ n ++ post.
Proof.
  induction s as [|c s IH]; simpl.
  - rewrite orb_false_r, startsWith_app. split.
    + intros [post H]. exists "", post. exact H.
    + intros (pre & post & H). destruct pre; [eauto | discriminate].
  - rewrite orb_true_iff, startsWith_app, IH. split.
    + intros [[post H] | (pre & post & H)].
      * exists "", post. exact H.
      * exists (String c pre), post. rewrite append_cons. congruence.
    + intros (pre & post & H). destruct pre as [|d pre].
      * left. eauto.
      * right. exists pre, post. rewrite append_cons in H. congruence.
Qed.

Lemma lower_from_app_inv (s a b : string) (st : bool) :
  JS.lower_from st s = a ++ b ->
  exists sa sb st', s = sa ++ sb /\ JS.lower_from st sa = a
                    /\ JS.lower_from st' sb = b.
Proof.
  revert s st. induction a as [|c a IH]; intros s st H.
  - exists "", s, st. auto.
  - destruct s as [|d s]; [discriminate|]. simpl in H. rewrite append_cons in H.
    injection H as Hc H. destruct (IH _ _ H) as (sa & sb & st' & -> & <- & <-).
    exists (String d sa), sb, st'. simpl. rewrite Hc. auto.
Qed.

Lemma lower_from_app (a b : string) (st : bool) :
  exists st', JS.lower_from st (a ++ b)
              = JS.lower_from st a ++ JS.lower_from st' b.
Proof.
  revert st. induction a as [|c a IH]; intros st.
  - exists st. reflexivity.
  - rewrite append_cons. simpl.
    destruct (IH (N_of_ascii c =? 195)%N) as [st' ->]. exists st'.
    reflexivity.
Qed.

Lemma lower_byte_j (st : bool) (c : ascii) :
  JS.lower_byte st c = "j"%char <-> c = "j"%char \/ c = "J"%char.
Proof.
  split.
  - destruct st, c as [[] [] [] [] [] [] [] []]; vm_compute; intros H;
      first [discriminate H | left; reflexivity | right; reflexivity].
  - destruct st; intros [-> | ->]; reflexivity.
Qed.

Lemma lower_byte_s (st : bool) (c : ascii) :
  JS.lower_byte st c = "s"%char <-> c = "s"%char \/ c = "S"%char.
Proof.
  split.
  - destruct st, c as [[] [] [] [] [] [] [] []]; vm_compute; intros H;
      first [discriminate H | left; reflexivity | right; reflexivity].
  - destruct st; intros [-> | ->]; reflexivity.
Qed.

Lemma lower_byte_o (st : bool) (c : ascii) :
  JS.lower_byte st c = "o"%char <-> c = "o"%char \/ c = "O"%char.
Proof.
  split.
  - destruct st, c as [[] [] [] [] [] [] [] []]; vm_compute; intros H;
      first [discriminate H | left; reflexivity | right; reflexivity].
  - destruct st; intros [-> | ->]; reflexivity.
Qed.

Lemma lower_byte_n (st : bool) (c : ascii) :
  JS.lower_byte st c = "n"%char <-> c = "n"%char \/ c = "N"%char.
Proof.
  split.
  - destruct st, c as [[] [] [] [] [] [] [] []]; vm_compute; intros H;
      first [discriminate H | left; reflexivity | right; reflexivity].
  - destruct st; intros [-> | ->]; reflexivity.
Qed.

(** [toLowerCase().includes("json")] finds the word in any mix of cases. *)
Lemma includes_json_iff (ct : string) :
  JS.includes (JS.toLowerCase ct) "json" = true <-> mentions_json ct.
Proof.
  rewrite includes_app. unfold mentions_json, JS.toLowerCase. split.
  - intros (pre & post & H).
    apply lower_from_app_inv in H as (sa & sb & st & -> & _ & H).
    apply lower_from_app_inv in H as (w & sp & st' & -> & Hw & _).
    destruct w as [|j [|s [|o [|n [|x w]]]]]; try discriminate Hw.
    simpl in Hw. injection Hw as Hj Hs Ho Hn.
    exists sa, sp, j, s, o, n. split; [reflexivity|].
    apply lower_byte_j in Hj. apply lower_byte_s in Hs.
    apply lower_byte_o in Ho. apply lower_byte_n in Hn. auto.
  - intros (pre & post & j & s & o & n & -> & Hj & Hs & Ho & Hn).
    destruct (lower_from_app pre
                (String j (String s (String o (String n post)))) false)
      as [st ->].
    exists (JS.lower_from false pre). simpl.
    eexists. f_equal.
    rewrite (proj2 (lower_byte_j _ _) Hj), (proj2 (lower_byte_s _ _) Hs),
      (proj2 (lower_byte_o _ _) Ho), (proj2 (lower_byte_n _ _) Hn).
    reflexivity.
Qed.

Lemma declares_json_iff (headers : gmap string string) :
  declares_json headers = true <->
  exists ct, headers !! "content-type" = Some ct /\ mentions_json ct.
Proof.
  unfold declares_json. destruct (headers !! "content-type") as [ct|].
  - rewrite includes_json_iff. split; [eauto|].
    intros (ct' & [= <-] & H). exact H.
  - split; [discriminate | intros (ct & [=] & _)].
Qed.

(** [toLowerCase] on header text: ASCII letters and accented letters. *)
Example toLowerCase_examples :
  JS.toLowerCase "Content-Type" = "content-type"
  /\ JS.toLowerCase "Application/JSON; Charset=UTF-8"
     = "application/json; charset=utf-8"
  /\ JS.toLowerCase "ÀÉÖ×ØÞß÷ÿ" = "àéö×øþß÷ÿ"
  /\ JS.toLowerCase "x-1_2.3~" = "x-1_2.3~".
Proof. repeat split; reflexivity. Qed.

(** C2.  Parsing of a non-empty body.  When the declared content type
    contains "json" in any mix of cases and parsing fails, the parser's
    message is recorded as the parse error (and a 2xx response then gives the
    failure "Response is not valid JSON: message"); when the content type
    does not contain "json" and parsing fails, the body text itself is the
    parsed value and no error is recorded; in both branches a successful
    parse gives the parsed value and no error. *)
Theorem parse_body_policy :
  forall (JSON_parse : string -> ParseOutcome)
         (StringToNumber : string -> JS.number)
         (headers : gmap string string) (rawText : string),
    rawText <> "" ->
    let declared :=
      exists ct, headers !! "content-type" = Some ct /\ mentions_json ct in
    (forall m, declared -> JSON_parse rawText = SyntaxError m ->
       parse_body JSON_parse headers rawText = (JNull, Some m)
       /\ forall url0 method0 resp elapsed,
           200 <= resp_status resp <= 299 -> m <> "" ->
           conclude JSON_parse StringToNumber url0 method0 resp elapsed
                    headers rawText
           = Failure (Some (make_summary StringToNumber url0 method0 resp
                                         elapsed headers rawText))
                     (Some headers)
                     ("Response is not valid JSON: " ++ m) (Some rawText))
    /\ (forall m, ~ declared -> JSON_parse rawText = SyntaxError m ->
          parse_body JSON_parse headers rawText = (JStr rawText, None))
    /\ (forall v, JSON_parse rawText = Parsed v ->
          parse_body JSON_parse headers rawText = (v, None)).
Proof.
  intros JSON_parse StringToNumber headers rawText Hne declared.
  apply truthy_nonempty in Hne.
  assert (Hd : declares_json headers = true <-> declared)
    by apply declares_json_iff.
  split; [|split].
  - intros m Hdecl Hfail. apply Hd in Hdecl.
    assert (Hp : parse_body JSON_parse headers rawText = (JNull, Some m)).
    { unfold parse_body. rewrite Hne, Hdecl, Hfail. reflexivity. }
    split; [exact Hp|].
    intros url0 method0 resp elapsed Hok Hm.
    rewrite conclude_cases. cbv zeta.
    apply resp_ok_range in Hok. apply truthy_nonempty in Hm.
    rewrite Hok, Hp. simpl. rewrite Hm. reflexivity.
  - intros m Hnot Hm. unfold parse_body.
    destruct (declares_json headers) eqn:E; [exfalso; apply Hnot, Hd; reflexivity|].
    rewrite Hne, Hm. reflexivity.
  - intros v Hv. unfold parse_body. rewrite Hne, Hv.
    destruct (declares_json headers); reflexivity.
Qed.

Lemma parse_body_policy_witness :
  parse_body Sample.JSON_parse
             (collect_headers [("Content-Type", "Application/JSON")])
             "{not json"
  = (JNull, Some "Unexpected token in JSON").
Proof.
  refine (proj1 (proj1 (parse_body_policy Sample.JSON_parse Sample.StringToNumber
                   (collect_headers [("Content-Type", "Application/JSON")])
                   "{not json" _) "Unexpected token in JSON" _ _)).
  - discriminate.
  - exists "Application/JSON". split; [reflexivity|].
    exists "Application/", "", "J"%char, "S"%char, "O"%char, "N"%char.
    split; [reflexivity|]. auto.
  - reflexivity.
Defined.

Lemma utf8_length_bytes (s : string) :
  JS.utf8_length s = Z.of_nat (String.length s).
Proof.
  induction s as [|c s IH]; [reflexivity|].
  cbn [JS.utf8_length String.length]. lia.
Qed.

Lemma length_append (a b : string) :
  String.length (a ++ b) = (String.length a + String.length b)%nat.
Proof.
  induction a as [|c a IH]; [reflexivity|].
  rewrite append_cons. simpl. rewrite IH. reflexivity.
Qed.

Lemma encode_point_bytes (cp : N) :
  Z.of_nat (String.length (Unicode.encode_point cp)) = Unicode.utf8_width cp.
Proof.
  unfold Unicode.encode_point, Unicode.utf8_width.
  destruct (cp <? 128)%N; [reflexivity|].
  destruct (cp <? 2048)%N; [reflexivity|].
  destruct (cp <? 65536)%N; reflexivity.
Qed.

(** The string of a text has one byte per byte of its UTF-8 encoding. *)
Lemma encode_bytes (cps : list N) :
  Z.of_nat (String.length (Unicode.encode cps)) = Unicode.utf8_size cps.
Proof.
  induction cps as [|cp cps IH]; [reflexivity|].
  cbn [Unicode.encode Unicode.utf8_size].
  rewrite length_append, Nat2Z.inj_add, IH, encode_point_bytes. reflexivity.
Qed.

Lemma size_of_cases StringToNumber (headers : gmap string string)
      (rawText : string) :
  (forall s, headers !! "content-length" = Some s ->
             JS.gt0 (StringToNumber s) = true ->
             size_of StringToNumber headers rawText = Some (StringToNumber s))
  /\ (~ (exists s, headers !! "content-length" = Some s /\
                   JS.gt0 (StringToNumber s) = true) ->
      size_of StringToNumber headers rawText
      = if JS.truthy rawText
        then Some (JS.int (Z.of_nat (String.length rawText))) else None).
Proof.
  unfold size_of, Number. split.
  - intros s Hs Hpos. rewrite Hs, Hpos.
    destruct (StringToNumber s); try discriminate Hpos; reflexivity.
  - intros Hnot. rewrite utf8_length_bytes.
    destruct (headers !! "content-length") as [s|] eqn:Hs.
    + destruct (JS.gt0 (StringToNumber s)) eqn:Hpos.
      * exfalso. apply Hnot. eauto.
      * rewrite andb_false_r. reflexivity.
    + reflexivity.
Qed.

(** C4.  [summary.sizeBytes]: the numeric value of the [content-length]
    header when the header is present and that value is above zero, whatever
    it is (an integer or not) and whatever the length of the body;
    otherwise, for a non-empty body, the number of bytes of its UTF-8
    encoding, which for the text of code points [cps] is the sum of their
    UTF-8 widths (1 to 4 bytes each); otherwise absent. *)
Theorem sizeBytes_derivation :
  forall (StringToNumber : string -> JS.number)
         (url0 : string) (method0 : Method) (resp : Response) (elapsed : Z)
         (headers : gmap string string) (rawText : string),
    let size :=
      sizeBytes (make_summary StringToNumber url0 method0 resp elapsed
                              headers rawText) in
    let usable :=
      exists s, headers !! "content-length" = Some s /\
                JS.gt0 (StringToNumber s) = true in
    (forall s, headers !! "content-length" = Some s ->
               JS.gt0 (StringToNumber s) = true ->
               size = Some (StringToNumber s))
    /\ (~ usable -> rawText <> "" ->
        size = Some (JS.int (Z.of_nat (String.length rawText)))
        /\ forall cps, rawText = Unicode.encode cps ->
                       size = Some (JS.int (Unicode.utf8_size cps)))
    /\ (~ usable -> rawText = "" -> size = None).
Proof.
  intros StringToNumber url0 method0 resp elapsed headers rawText size usable.
  subst size. simpl.
  destruct (size_of_cases StringToNumber headers rawText) as [Hhead Hbody].
  split; [exact Hhead|]. split.
  - intros Hnot Hne. apply truthy_nonempty in Hne.
    rewrite (Hbody Hnot), Hne. split; [reflexivity|].
    intros cps ->. rewrite encode_bytes. reflexivity.
  - intros Hnot ->. rewrite (Hbody Hnot). reflexivity.
Qed.

(** A body of 42 bytes: behind a header that announces 1024, behind one
    that announces 1.5, and measured when the header is missing or
    announces 0; the body of the one character U+20AC measures 3 bytes;
    an empty body without a usable header has no size. *)
Lemma sizeBytes_derivation_witness :
  let summary headers rawText :=
    make_summary Sample.StringToNumber "https://host/data" GET
      {| resp_status := 200; resp_statusText := "OK"; resp_headers := [] |}
      12 headers rawText in
  let body := "the body is forty-two bytes long, not more" in
  sizeBytes (summary (collect_headers [("Content-Length", "1024");
                                       ("content-type", "text/plain")]) body)
  = Some (JS.Dec false "1024" 4)
  /\ sizeBytes (summary (collect_headers [("content-length", "1.5")]) body)
     = Some (JS.Dec false "15" 1)
  /\ sizeBytes (summary (collect_headers [("content-type", "text/plain")])
                        body)
     = Some (JS.Dec false "42" 2)
  /\ sizeBytes (summary (collect_headers [("content-length", "0")]) body)
     = Some (JS.Dec false "42" 2)
  /\ sizeBytes (summary ∅ (Unicode.encode [0x20AC%N]))
     = Some (JS.Dec false "3" 1)
  /\ sizeBytes (summary (collect_headers [("content-length", "-1")]) "")
     = None.
Proof.
  intros summary body.
  assert (Hnone : forall (hs : list (string * string)) (v : string),
             collect_headers hs !! "content-length" = Some v ->
             JS.gt0 (Sample.StringToNumber v) = false ->
             ~ (exists s, collect_headers hs !! "content-length" = Some s /\
                          JS.gt0 (Sample.StringToNumber s) = true)).
  { intros hs v Hv Hneg (s & Hs & Hpos). rewrite Hs in Hv.
    injection Hv as ->. congruence. }
  assert (Hmissing : forall hs : list (string * string),
             collect_headers hs !! "content-length" = None ->
             ~ (exists s, collect_headers hs !! "content-length" = Some s /\
                          JS.gt0 (Sample.StringToNumber s) = true)).
  { intros hs Hv (s & Hs & _). congruence. }
  repeat apply conj.
  - refine (proj1 (sizeBytes_derivation Sample.StringToNumber _ _ _ _ _ _)
                  "1024" _ _); vm_compute; reflexivity.
  - refine (proj1 (sizeBytes_derivation Sample.StringToNumber _ _ _ _ _ _)
                  "1.5" _ _); vm_compute; reflexivity.
  - refine (proj1 (proj1 (proj2 (sizeBytes_derivation Sample.StringToNumber
                                   _ _ _ _ _ _)) _ _)).
    + apply Hmissing. vm_compute. reflexivity.
    + discriminate.
  - refine (proj1 (proj1 (proj2 (sizeBytes_derivation Sample.StringToNumber
                                   _ _ _ _ _ _)) _ _)).
    + apply (Hnone _ "0"); vm_compute; reflexivity.
    + discriminate.
  - refine (proj2 (proj1 (proj2 (sizeBytes_derivation Sample.StringToNumber
                                   _ _ _ _ _ _)) _ _) [0x20AC%N] _).
    + apply (Hmissing []). vm_compute. reflexivity.
    + discriminate.
    + reflexivity.
  - refine (proj2 (proj2 (sizeBytes_derivation Sample.StringToNumber
                            _ _ _ _ _ _)) _ _).
    + apply (Hnone _ "-1"); vm_compute; reflexivity.
    + reflexivity.
Defined.

(** The string of a text is the string literal of that text; the bytes
    at the ends of the four ranges of the encoder; some measured sizes. *)
Example encode_literal :
  Unicode.encode [0x20AC%N] = "€"
  /\ Unicode.encode [0x63; 0x61; 0x66; 0xE9]%N = "café"
  /\ Unicode.encode [0x1F600%N] = "😀"
  /\ map N_of_ascii
       (list_ascii_of_string
          (Unicode.encode [0x7F; 0x80; 0x7FF; 0x800; 0xFFFF; 0x10000;
                           0x10FFFF]%N))
     = [0x7F; 0xC2; 0x80; 0xDF; 0xBF; 0xE0; 0xA0; 0x80; 0xEF; 0xBF; 0xBF;
        0xF0; 0x90; 0x80; 0x80; 0xF4; 0x8F; 0xBF; 0xBF]%N
  /\ JS.utf8_length "the body is forty-two bytes long, not more" = 42
  /\ JS.utf8_length "café" = 5
  /\ JS.utf8_length "€" = 3
  /\ JS.utf8_length "😀" = 4.
Proof. repeat split; reflexivity. Qed.

(** * Properties of the control flow *)

Section ControlFlow.

Variable JSON_parse : string -> ParseOutcome.
Variable StringToNumber : string -> JS.number.


(** The state after a rejected [await]: the [catch] clause has written the
    failure and the [finally] clause has cleared [loading]. *)
Lemma resume_rejected_fetch c inv e now st :
  resume c inv (after_fetch JSON_parse StringToNumber c inv (Rejected e) now) st
  = ({| result := Some (Failure None None
                                (catch_message (inv_timeoutMs inv) e) None);
        loading := false; controllerRef := controllerRef st;
        aborted := aborted st; timers := timers st;
        pending := delete c (pending st); created := created st |},
     Normal Finished).
Proof. reflexivity. Qed.

Lemma resume_rejected_text c inv resp elapsed headers e st :
  resume c inv (after_text JSON_parse StringToNumber c inv resp elapsed headers (Rejected e)) st
  = ({| result := Some (Failure None None
                                (catch_message (inv_timeoutMs inv) e) None);
        loading := false; controllerRef := controllerRef st;
        aborted := aborted st; timers := timers st;
        pending := delete c (pending st); created := created st |},
     Normal Finished).
Proof. reflexivity. Qed.

Lemma resume_fulfilled_text c inv resp elapsed headers rawText st :
  resume c inv (after_text JSON_parse StringToNumber c inv resp elapsed headers (Fulfilled rawText)) st
  = ({| result := Some (conclude JSON_parse StringToNumber (inv_url inv)
                                 (inv_method inv) resp elapsed headers
                                 rawText);
        loading := false; controllerRef := controllerRef st;
        aborted := aborted st; timers := timers st ∖ {[c]};
        pending := delete c (pending st); created := created st |},
     Normal Finished).
Proof. reflexivity. Qed.

Lemma resume_fulfilled_fetch c inv resp now st :
  resume c inv (after_fetch JSON_parse StringToNumber c inv (Fulfilled resp) now) st
  = match inv_method inv with
    | HEAD =>
        ({| result := Some (conclude JSON_parse StringToNumber (inv_url inv)
                                     HEAD resp (now - inv_started inv)
                                     (collect_headers (resp_headers resp)) "");
            loading := false; controllerRef := controllerRef st;
            aborted := aborted st; timers := timers st ∖ {[c]};
            pending := delete c (pending st); created := created st |},
         Normal Finished)
    | GET =>
        let ph := AwaitText resp (now - inv_started inv)
                            (collect_headers (resp_headers resp)) in
        ({| result := result st; loading := loading st;
            controllerRef := controllerRef st;
            aborted := aborted st; timers := timers st;
            pending := <[c := {| inv_url := inv_url inv; inv_method := GET;
                                 inv_timeoutMs := inv_timeoutMs inv;
                                 inv_started := inv_started inv;
                                 inv_phase := ph |}]> (pending st);
            created := created st |},
         Normal (Awaiting ph))
    end.
Proof.
  unfold resume, try_catch_finally, after_fetch.
  simpl. destruct (inv_method inv) eqn:E; simpl; rewrite ?E; reflexivity.
Qed.

Lemma analyze_start_eq url0 method0 timeoutMs now st :
  analyze_start url0 method0 timeoutMs now st
  = ({| result := None; loading := true;
        controllerRef := Some (created st);
        aborted := match controllerRef st with
                   | Some c => {[c]} ∪ aborted st
                   | None => aborted st
                   end;
        timers := {[created st]} ∪ timers st;
        pending := <[created st := {| inv_url := url0; inv_method := method0;
                                      inv_timeoutMs := timeoutMs;
                                      inv_started := now;
                                      inv_phase := AwaitFetch |}]> (pending st);
        created := S (created st) |},
     Normal (Awaiting AwaitFetch)).
Proof.
  destruct st as [res ld [cur|] ab tm pd cr]; reflexivity.
Qed.

End ControlFlow.

(** * The outcome for a received response *)

(** C10.  A 2xx response with an empty body gives the success variant with
    [data] equal to [null], whatever the content type declares: no parse is
    attempted and no parse error is reported.  A [HEAD] request always has
    the empty body.  A body that is the JSON text of [null] gives the same
    [data]. *)
Theorem empty_body_is_null :
  forall (JSON_parse : string -> ParseOutcome)
         (StringToNumber : string -> JS.number)
         (url0 : string) (method0 : Method) (resp : Response) (elapsed : Z)
         (headers : gmap string string),
    200 <= resp_status resp <= 299 ->
    parse_body JSON_parse headers "" = (JNull, None)
    /\ conclude JSON_parse StringToNumber url0 method0 resp elapsed headers ""
       = Success (make_summary StringToNumber url0 method0 resp elapsed
                               headers "")
                 headers JNull ""
    /\ (forall c inv now st,
          inv_method inv = HEAD ->
          result (fst (resume c inv
                         (after_fetch JSON_parse StringToNumber c inv
                                      (Fulfilled resp) now) st))
          = Some (Success (make_summary StringToNumber (inv_url inv) HEAD resp
                                        (now - inv_started inv)
                                        (collect_headers (resp_headers resp)) "")
                          (collect_headers (resp_headers resp)) JNull ""))
    /\ (JSON_parse "null" = Parsed JNull ->
        exists summary,
          conclude JSON_parse StringToNumber url0 method0 resp elapsed headers
                   "null"
          = Success summary headers JNull "null").
Proof.
  intros JSON_parse StringToNumber url0 method0 resp elapsed headers Hok.
  apply resp_ok_range in Hok.
  assert (Hc : forall u m e h,
             conclude JSON_parse StringToNumber u m resp e h ""
             = Success (make_summary StringToNumber u m resp e h "") h JNull "").
  { intros. rewrite conclude_cases. cbv zeta. rewrite Hok. reflexivity. }
  repeat split.
  - apply Hc.
  - intros c inv now st Hm.
    rewrite resume_fulfilled_fetch, Hm. simpl. rewrite Hc. reflexivity.
  - intros Hnull. eexists. rewrite conclude_cases. cbv zeta. rewrite Hok.
    unfold parse_body. simpl. rewrite Hnull.
    destruct (declares_json headers); reflexivity.
Qed.

Lemma empty_body_is_null_witness :
  conclude Sample.JSON_parse Sample.StringToNumber "https://host/data" GET
           {| resp_status := 204; resp_statusText := "";
              resp_headers := [("content-type", "application/json")] |}
           7 (collect_headers [("content-type", "application/json")]) ""
  = Success (make_summary Sample.StringToNumber "https://host/data" GET
               {| resp_status := 204; resp_statusText := "";
                  resp_headers := [("content-type", "application/json")] |}
               7 (collect_headers [("content-type", "application/json")]) "")
            (collect_headers [("content-type", "application/json")]) JNull "".
Proof.
  refine (proj1 (proj2 (empty_body_is_null Sample.JSON_parse
                          Sample.StringToNumber _ _ _ _ _ _))).
  simpl. lia.
Defined.

(** C1.  Outcome selection of [analyze] for a received response: the
    resumption that has the response and its body text (the empty text for
    a [HEAD] request) writes one result, chosen in priority order.  A status outside 200..299 gives the failure
    "Request failed with status N" with summary, headers and body text,
    whatever the parse recorded; otherwise a recorded parse error (with the
    parser's message, which is not empty) gives the failure
    "Response is not valid JSON: message" with summary, headers and body
    text; otherwise the success variant carries summary, headers, the parsed
    data and the body text. *)
Theorem conclude_outcome_priority :
  forall (JSON_parse : string -> ParseOutcome)
         (StringToNumber : string -> JS.number)
         (c : nat) (inv : Invocation) (st : App)
         (resp : Response) (elapsed : Z)
         (headers : gmap string string) (rawText : string),
    let summary :=
      make_summary StringToNumber (inv_url inv) (inv_method inv) resp elapsed
                   headers rawText in
    let recorded := parse_body JSON_parse headers rawText in
    let r :=
      conclude JSON_parse StringToNumber (inv_url inv) (inv_method inv) resp
               elapsed headers rawText in
    result (fst (resume c inv
                   (after_text JSON_parse StringToNumber c inv resp elapsed
                               headers (Fulfilled rawText)) st))
    = Some r
    /\ (forall now,
          inv_method inv = HEAD -> rawText = "" ->
          elapsed = now - inv_started inv ->
          headers = collect_headers (resp_headers resp) ->
          result (fst (resume c inv
                         (after_fetch JSON_parse StringToNumber c inv
                                      (Fulfilled resp) now) st))
          = Some r)
    /\ (~ (200 <= resp_status resp <= 299) ->
        r = Failure (Some summary) (Some headers)
                    ("Request failed with status "
                       ++ JS.toString (resp_status resp))
                    (Some rawText))
    /\ (200 <= resp_status resp <= 299 ->
        forall m, snd recorded = Some m -> m <> "" ->
        r = Failure (Some summary) (Some headers)
                    ("Response is not valid JSON: " ++ m) (Some rawText))
    /\ (200 <= resp_status resp <= 299 ->
        snd recorded = None ->
        r = Success summary headers (fst recorded) rawText).
Proof.
  intros JSON_parse StringToNumber c inv st resp elapsed headers rawText
         summary recorded r.
  split; [rewrite resume_fulfilled_text; reflexivity|].
  split.
  { intros now Hm -> -> ->. rewrite resume_fulfilled_fetch, Hm. subst r.
    rewrite Hm. reflexivity. }
  subst r. rewrite conclude_cases. fold summary recorded. cbv zeta.
  repeat split.
  - intros Hbad. rewrite <- resp_ok_range in Hbad.
    destruct (resp_ok resp); [congruence | reflexivity].
  - intros Hok m Hm Hne. apply resp_ok_range in Hok. rewrite Hok, Hm. simpl.
    apply truthy_nonempty in Hne. rewrite Hne. reflexivity.
  - intros Hok Hnone. apply resp_ok_range in Hok. rewrite Hok, Hnone.
    reflexivity.
Qed.

Lemma conclude_outcome_priority_witness :
  Sample.conclude "https://host/a" GET Sample.resp404 3
                  (collect_headers Sample.json_headers) "{not json"
  = Failure (Some (Sample.make_summary "https://host/a" GET Sample.resp404 3
                     (collect_headers Sample.json_headers) "{not json"))
            (Some (collect_headers Sample.json_headers))
            "Request failed with status 404" (Some "{not json")
  /\ Sample.conclude "https://host/a" GET Sample.resp200 3
                     (collect_headers Sample.json_headers) "{not json"
     = Failure (Some (Sample.make_summary "https://host/a" GET Sample.resp200
                        3 (collect_headers Sample.json_headers) "{not json"))
               (Some (collect_headers Sample.json_headers))
               "Response is not valid JSON: Unexpected token in JSON"
               (Some "{not json")
  /\ Sample.conclude "https://host/a" GET Sample.resp200 3
                     (collect_headers Sample.json_headers) "true"
     = Success (Sample.make_summary "https://host/a" GET Sample.resp200 3
                  (collect_headers Sample.json_headers) "true")
               (collect_headers Sample.json_headers) (JBool true) "true".
Proof.
  pose proof (conclude_outcome_priority Sample.JSON_parse Sample.StringToNumber
                0%nat Sample.first_invocation initial Sample.resp404 3
                (collect_headers Sample.json_headers) "{not json") as H404.
  pose proof (conclude_outcome_priority Sample.JSON_parse Sample.StringToNumber
                0%nat Sample.first_invocation initial Sample.resp200 3
                (collect_headers Sample.json_headers) "{not json") as Hbad.
  pose proof (conclude_outcome_priority Sample.JSON_parse Sample.StringToNumber
                0%nat Sample.first_invocation initial Sample.resp200 3
                (collect_headers Sample.json_headers) "true") as Hgood.
  cbv zeta in H404, Hbad, Hgood.
  destruct H404 as (_ & _ & H404 & _). destruct Hbad as (_ & _ & _ & Hbad & _).
  destruct Hgood as (_ & _ & _ & _ & Hgood).
  split; [| split].
  - apply H404. simpl. lia.
  - apply (Hbad ltac:(simpl; lia) "Unexpected token in JSON");
      [reflexivity | discriminate].
  - apply Hgood; [simpl; lia | reflexivity].
Defined.

(** The 404 response of the specification: the failure keeps the status. *)
Example status_404_summary :
  status (Sample.make_summary "https://host/a" GET Sample.resp404 3
            (collect_headers Sample.json_headers) "{not json") = 404.
Proof. reflexivity. Qed.


(** * Reachable states *)

Section Reachable.

Variable JSON_parse : string -> ParseOutcome.
Variable StringToNumber : string -> JS.number.

Lemma step_invoke st url0 method0 timeoutMs now :
  step JSON_parse StringToNumber st (Invoke url0 method0 timeoutMs now)
  = Some (fst (analyze_start url0 method0 timeoutMs now st)).
Proof. reflexivity. Qed.

Lemma consistent_initial : consistent_state initial.
Proof.
  split; simpl.
  - intros c [inv H]. rewrite lookup_empty in H. discriminate.
  - intros c H. discriminate.
  - intros c H. set_solver.
  - intros c H. set_solver.
  - intros c [[inv H] _]. simpl in H. rewrite lookup_empty in H. discriminate.
Qed.

Lemma consistent_retire st c res ld tm :
  tm ⊆ timers st ->
  consistent_state st ->
  consistent_state {| result := res; loading := ld;
                      controllerRef := controllerRef st;
                      aborted := aborted st; timers := tm;
                      pending := delete c (pending st);
                      created := created st |}.
Proof.
  intros Htm [Hp Hc Ha Ht Hl]. split; simpl.
  - intros c' [inv H]. apply lookup_delete_Some in H as [_ H]. eauto.
  - exact Hc.
  - exact Ha.
  - intros c' H. apply Ht. set_solver.
  - intros c' [[inv H] Hna]. simpl in *.
    apply lookup_delete_Some in H as [_ H]. apply Hl. split; eauto.
Qed.

Lemma consistent_step st ev st' :
  consistent_state st ->
  step JSON_parse StringToNumber st ev = Some st' ->
  consistent_state st'.
Proof.
  intros Hst Hstep. destruct ev as [url0 method0 timeoutMs now|c p now|c p|c];
    simpl in Hstep.
  - injection Hstep as <-. rewrite analyze_start_eq. simpl.
    destruct Hst as [Hp Hc Ha Ht Hl]. split; simpl.
    + intros c [inv H]. apply lookup_insert_Some in H as [[<- _]|[_ H]];
        [lia | specialize (Hp c ltac:(eauto)); lia].
    + intros c [= <-]. lia.
    + intros c H. destruct (controllerRef st) as [c0|].
      * apply elem_of_union in H as [H|H].
        -- apply elem_of_singleton in H. subst c.
           specialize (Hc c0 eq_refl). lia.
        -- specialize (Ha c H). lia.
      * specialize (Ha c H). lia.
    + intros c H. apply elem_of_union in H as [H|H].
      * apply elem_of_singleton in H. subst c. lia.
      * specialize (Ht c H). lia.
    + intros c [[inv H] Hna]. simpl in *.
      apply lookup_insert_Some in H as [[<- _]|[Hne H]]; [reflexivity|].
      exfalso. destruct (controllerRef st) as [c0|] eqn:E.
      * assert (Hna' : c ∉ aborted st) by set_solver.
        specialize (Hl c (conj (ex_intro _ inv H) Hna')). set_solver.
      * specialize (Hl c (conj (ex_intro _ inv H) Hna)). discriminate.
  - destruct (pending st !! c) as [inv|] eqn:Hinv; [|discriminate].
    destruct (inv_phase inv); [|discriminate].
    destruct (consistent st c p); [|discriminate].
    injection Hstep as <-. destruct p as [resp|e].
    + rewrite resume_fulfilled_fetch. destruct (inv_method inv); simpl.
      * destruct Hst as [Hp Hc Ha Ht Hl]. split; simpl; try assumption.
        -- intros c' [i H]. apply lookup_insert_Some in H as [[<- _]|[_ H]];
             eauto.
        -- intros c' [[i H] Hna]. simpl in *. apply Hl. split; [|exact Hna].
           apply lookup_insert_Some in H as [[<- _]|[_ H]]; eauto.
      * apply consistent_retire; [by apply subseteq_difference_l | exact Hst].
    + rewrite resume_rejected_fetch.
      apply consistent_retire; [done | exact Hst].
  - destruct (pending st !! c) as [inv|] eqn:Hinv; [|discriminate].
    destruct (inv_phase inv) as [|resp elapsed headers]; [discriminate|].
    destruct (consistent st c p); [|discriminate].
    injection Hstep as <-. destruct p as [rawText|e].
    + rewrite resume_fulfilled_text.
      apply consistent_retire; [by apply subseteq_difference_l | exact Hst].
    + rewrite resume_rejected_text.
      apply consistent_retire; [done | exact Hst].
  - destruct (decide (c ∈ timers st)) as [Hin|]; [|discriminate].
    injection Hstep as <-. simpl.
    destruct Hst as [Hp Hc Ha Ht Hl]. split; simpl.
    + exact Hp.
    + exact Hc.
    + intros c' H. apply elem_of_union in H as [H|H]; [|auto].
      apply elem_of_singleton in H. subst c'. auto.
    + intros c' H. apply Ht. apply elem_of_difference in H. tauto.
    + intros c' [H Hna]. simpl in *. apply Hl. split; [exact H|].
      intros Hin'. apply Hna, elem_of_union. auto.
Qed.

Lemma consistent_run evs : forall st st',
  consistent_state st ->
  run JSON_parse StringToNumber st evs = Some st' ->
  consistent_state st'.
Proof.
  induction evs as [|ev evs IH]; intros st st' Hst Hrun; simpl in Hrun.
  - injection Hrun as <-. exact Hst.
  - destruct (step JSON_parse StringToNumber st ev) as [st1|] eqn:E;
      [|discriminate].
    eapply IH; [|exact Hrun]. eapply consistent_step; eauto.
Qed.

Lemma consistent_reachable st :
  reachable JSON_parse StringToNumber st -> consistent_state st.
Proof. intros [evs H]. eapply consistent_run; [apply consistent_initial|eauto]. Qed.

End Reachable.

(** * Exceptions and cancellation *)


(** A request that the timer aborts, and one that the network fails. *)
Example timeout_failure :
  result <$> Sample.run initial
                        [Invoke "https://host/slow" GET 15000 0;
                         TimerFired 0%nat;
                         FetchSettled 0%nat (Rejected Sample.abortError) 15001]
  = Some (Some (Failure None None "Request aborted after 15000 ms" None)).
Proof. reflexivity. Qed.

Example network_failure :
  result <$> Sample.run initial
                        [Invoke "https://nowhere/" GET 15000 0;
                         FetchSettled 0%nat (Rejected Sample.networkError) 40]
  = Some (Some (Failure None None "Failed to fetch" None)).
Proof. reflexivity. Qed.




(** * Properties of the JSON tree *)

Lemma mapi_from_map {A B C} (f : nat -> A -> B) (g : B -> C) (l : list A) :
  forall i, mapi_from (fun j x => g (f j x)) i l = map g (mapi_from f i l).
Proof.
  induction l as [|x l IH]; intros i; simpl; [reflexivity|].
  rewrite IH. reflexivity.
Qed.

(** [mount], one level at a time. *)
Lemma mount_eq (p : TreeProps) :
  mount p = Node p (init_open p)
                 (if init_open p then map mount (child_props p) else []).
Proof.
  destruct p as [nm d lv co]. unfold mount, child_props. simpl.
  destruct d; simpl; try (destruct (init_open _); reflexivity).
  - destruct (init_open _); [|reflexivity]. f_equal.
    rewrite map_map. simpl.
    rewrite <- (mapi_from_map (fun j x => (JS.toString (Z.of_nat j), x))
                  (fun kv => mount_at (Some (fst kv)) (snd kv) _ None)).
    reflexivity.
  - destruct (init_open _); [|reflexivity]. f_equal.
    rewrite map_map. apply map_ext. intros [k x]. reflexivity.
Qed.

Lemma open_at_mount (p : TreeProps) : open_at [] (mount p) = Some (init_open p).
Proof. rewrite mount_eq. reflexivity. Qed.

(** A child element is at a level above its parent's and carries no
    [collapsed] prop. *)
Lemma child_props_shape (p cp : TreeProps) :
  In cp (child_props p) ->
  level cp = Some (level_of p + 1) /\ collapsed cp = None.
Proof.
  unfold child_props. rewrite in_map_iff. intros (kv & <- & _). auto.
Qed.

Lemma mount_child_closed (p cp : TreeProps) :
  0 <= level_of p -> In cp (child_props p) -> mount cp = Node cp false [].
Proof.
  intros Hlv Hin. apply child_props_shape in Hin as [Hl Hc].
  rewrite mount_eq. unfold init_open. rewrite Hc.
  replace (level_of cp) with (level_of p + 1)
    by (unfold level_of at 2; rewrite Hl; reflexivity).
  destruct (level_of p + 1 <? 1) eqn:E; [apply Z.ltb_lt in E; lia | reflexivity].
Qed.

(** C6.  The [open] state of a mounted node starts as [false] when the
    caller passes [collapsed], and otherwise as [true] when the level is
    below 1 and as [false] when it is not. *)
Theorem initial_open_state :
  forall p : TreeProps,
    (collapsed p = Some true -> open_at [] (mount p) = Some false)
    /\ (collapsed p <> Some true -> level_of p < 1 ->
        open_at [] (mount p) = Some true)
    /\ (collapsed p <> Some true -> 1 <= level_of p ->
        open_at [] (mount p) = Some false).
Proof.
  intros p. rewrite open_at_mount. unfold init_open.
  repeat split.
  - intros ->. reflexivity.
  - intros Hc Hl. apply Z.ltb_lt in Hl. rewrite Hl.
    destruct (collapsed p) as [[]|]; congruence.
  - intros Hc Hl. apply Z.ltb_ge in Hl. rewrite Hl.
    destruct (collapsed p) as [[]|]; congruence.
Qed.

Lemma initial_open_state_witness :
  open_at [] (mount {| name := Some "b"; data := JObj [("c", JNum 2)];
                       level := Some 3; collapsed := Some true |})
  = Some false
  /\ open_at [] (mount (Sample.root Sample.nested)) = Some true
  /\ open_at [] (mount {| name := Some "b"; data := JObj [("c", JNum 2)];
                          level := Some 1; collapsed := None |})
     = Some false.
Proof.
  split; [|split].
  - apply (proj1 (initial_open_state _)). reflexivity.
  - apply (proj1 (proj2 (initial_open_state _))); [discriminate | unfold level_of; simpl; lia].
  - apply (proj2 (proj2 (initial_open_state _))); [discriminate | unfold level_of; simpl; lia].
Defined.

Lemma lookup_map {A B} (f : A -> B) (l : list A) (i : nat) :
  map f l !! i = f <$> l !! i.
Proof.
  revert i. induction l as [|x l IH]; intros [|i]; simpl; auto.
Qed.

Lemma lookup_In {A} (l : list A) (i : nat) (x : A) : l !! i = Some x -> In x l.
Proof. intros H. apply list_elem_of_In. eapply list_elem_of_lookup_2, H. Qed.

(** C7, as the code has it.  In the tree mounted for a root element, the
    root starts open unless [collapsed] is passed, and starts closed when it
    is; every other mounted node, the first-level children included, starts
    closed; and a node mounted later, when its parent is expanded, starts
    closed as well. *)
Theorem initial_open_by_depth :
  forall (d : value) (co : option bool),
    let f := mount {| name := None; data := d; level := None;
                      collapsed := co |} in
    (co <> Some true -> open_at [] f = Some true)
    /\ (co = Some true -> open_at [] f = Some false)
    /\ (forall path b, path <> [] -> open_at path f = Some b -> b = false)
    /\ (forall p cp, 0 <= level_of p -> In cp (child_props p) ->
                     mount cp = Node cp false []).
Proof.
  intros d co f. subst f.
  set (p := {| name := None; data := d; level := None; collapsed := co |}).
  assert (Hlv : level_of p = 0) by reflexivity.
  split; [|split; [|split]].
  - intros Hco. rewrite open_at_mount. subst p.
    destruct co as [[]|]; [congruence | reflexivity | reflexivity].
  - intros ->. rewrite open_at_mount. reflexivity.
  - intros path b Hpath Hb. rewrite mount_eq in Hb.
    destruct path as [|i path]; [congruence|]. simpl in Hb.
    destruct (init_open p); [|discriminate].
    rewrite lookup_map in Hb.
    destruct (child_props p !! i) as [cp|] eqn:Hcp; [|discriminate].
    simpl in Hb. apply lookup_In in Hcp.
    rewrite (mount_child_closed p cp) in Hb by (rewrite ?Hlv; auto; lia).
    destruct path as [|j path]; simpl in Hb; congruence.
  - intros p' cp. apply mount_child_closed.
Qed.

Lemma initial_open_by_depth_witness :
  open_at [] (mount (Sample.root Sample.nested)) = Some true
  /\ open_at [] (mount {| name := None; data := Sample.nested; level := None;
                          collapsed := Some true |}) = Some false.
Proof.
  split.
  - apply (proj1 (initial_open_by_depth Sample.nested None)). discriminate.
  - apply (proj1 (proj2 (initial_open_by_depth Sample.nested (Some true)))).
    reflexivity.
Defined.

(** C7, as the specification words it, fails at the first level: in the tree
    of [{a: 1, b: {c: 2}}] the child [b], at level 1, starts closed. *)
Lemma first_level_child_starts_closed :
  level_of <$> props_at [1%nat] (mount (Sample.root Sample.nested)) = Some 1
  /\ data <$> props_at [1%nat] (mount (Sample.root Sample.nested))
     = Some (JObj [("c", JNum 2)])
  /\ open_at [1%nat] (mount (Sample.root Sample.nested)) = Some false
  /\ open_at [1%nat] (mount (Sample.root Sample.nested)) <> Some true.
Proof.
  repeat split; try reflexivity. vm_compute. discriminate.
Qed.

(** The node that [toggle] reaches gets the opposite state. *)
Lemma toggle_flips (p : list nat) : forall (f : Fiber) (pr : TreeProps) (b : bool),
  props_at p f = Some pr ->
  isArray (data pr) || isObject (data pr) = true ->
  open_at p f = Some b ->
  open_at p (toggle p f) = Some (negb b).
Proof.
  induction p as [|i p IH]; intros [pr0 o kids] pr b Hpr Hbr Ho; simpl in *.
  - injection Hpr as ->. injection Ho as ->. rewrite Hbr. reflexivity.
  - rewrite list_lookup_alter_eq.
    destruct (kids !! i) as [k|]; [|discriminate]. simpl. eauto.
Qed.

(** A node that is neither the toggled one nor below it keeps its state. *)
Lemma toggle_frame (p : list nat) : forall (f : Fiber) (q : list nat),
  ~ p `prefix_of` q ->
  open_at q (toggle p f) = open_at q f.
Proof.
  induction p as [|i p IH]; intros [pr o kids] q Hpre.
  - exfalso. apply Hpre, prefix_nil.
  - destruct q as [|j q]; [reflexivity|]. simpl.
    destruct (decide (i = j)) as [<-|Hne].
    + rewrite list_lookup_alter_eq.
      destruct (kids !! i) as [k|]; [|reflexivity]. simpl.
      apply IH. intros Hp. apply Hpre. apply prefix_cons, Hp.
    + rewrite list_lookup_alter_ne by exact Hne. reflexivity.
Qed.

(** Below the toggled node: closing it unmounts the nodes below, opening it
    mounts its children afresh. *)
Lemma toggle_below (p : list nat) :
  forall (f : Fiber) (pr : TreeProps) (b : bool) (i : nat) (r : list nat),
  props_at p f = Some pr ->
  isArray (data pr) || isObject (data pr) = true ->
  open_at p f = Some b ->
  open_at (p ++ i :: r) (toggle p f)
  = if b then None
    else open_at (i :: r) (Node pr true (map mount (child_props pr))).
Proof.
  induction p as [|j p IH]; intros [pr0 o kids] pr b i r Hpr Hbr Ho;
    simpl in *.
  - injection Hpr as ->. injection Ho as ->. rewrite Hbr.
    destruct b; reflexivity.
  - rewrite list_lookup_alter_eq.
    destruct (kids !! j) as [k|]; [|discriminate]. simpl.
    eapply IH; eauto.
Qed.

(** C8, as the code has it.  A toggle of a branch node flips the [open]
    state of that node and leaves the state of every node that is not below
    it as it was: siblings, ancestors and the rest of the tree.  The nodes
    below it do not keep their state: closing the node unmounts them, and
    opening it mounts its children afresh, in their initial state. *)
Theorem toggle_independence :
  forall (f : Fiber) (p : list nat) (pr : TreeProps) (b : bool),
    props_at p f = Some pr ->
    isArray (data pr) || isObject (data pr) = true ->
    open_at p f = Some b ->
    open_at p (toggle p f) = Some (negb b)
    /\ (forall q, ~ p `prefix_of` q -> open_at q (toggle p f) = open_at q f)
    /\ (forall i r,
          open_at (p ++ i :: r) (toggle p f)
          = if b then None
            else open_at (i :: r) (Node pr true (map mount (child_props pr)))).
Proof.
  intros f p pr b Hpr Hbr Ho. split; [|split].
  - eapply toggle_flips; eauto.
  - intros q Hq. apply toggle_frame, Hq.
  - intros i r. apply toggle_below; assumption.
Qed.

Lemma toggle_independence_witness :
  open_at [1%nat] (toggle [1%nat] (mount (Sample.root Sample.nested)))
  = Some true
  /\ open_at [0%nat] (toggle [1%nat] (mount (Sample.root Sample.nested)))
     = open_at [0%nat] (mount (Sample.root Sample.nested))
  /\ open_at [] (toggle [1%nat] (mount (Sample.root Sample.nested)))
     = open_at [] (mount (Sample.root Sample.nested)).
Proof.
  destruct (toggle_independence (mount (Sample.root Sample.nested)) [1%nat]
              {| name := Some "b"; data := JObj [("c", JNum 2)];
                 level := Some 1; collapsed := None |} false
              eq_refl eq_refl eq_refl) as (Hflip & Hframe & _).
  split; [exact Hflip | split; apply Hframe].
  - intros [k Hk]. discriminate Hk.
  - intros [k Hk]. discriminate Hk.
Defined.

(** C8, as the specification words it, fails below the toggled node.  In the
    tree of [{a: 1, b: {c: 2}}] with [b] expanded, collapsing the root takes
    the state of [b] away, and expanding the root again shows [b] closed. *)
Lemma toggle_resets_descendants :
  open_at [1%nat] Sample.b_expanded = Some true
  /\ open_at [1%nat] (toggle [] Sample.b_expanded) = None
  /\ open_at [1%nat] (toggle [] (toggle [] Sample.b_expanded)) = Some false
  /\ ~ toggle_leaves_others Sample.b_expanded.
Proof.
  repeat split.
  intros H. specialize (H [] [1%nat] ltac:(discriminate)). discriminate H.
Qed.

(** * Properties of the leaf rows *)

Lemma append_nil_r (s : string) : s ++ "" = s.
Proof. induction s as [|c s IH]; [reflexivity|]. rewrite append_cons, IH. reflexivity. Qed.

Lemma read_chars_plain (s rest : string) :
  plain s = true ->
  Reference.read_chars (s ++ dquote ++ rest) = Reference.Closed s rest.
Proof.
  induction s as [|c s IH]; intros Hs.
  - reflexivity.
  - simpl in Hs. apply andb_true_iff in Hs as [Hs Hr].
    apply andb_true_iff in Hs as [Hs H92]. apply andb_true_iff in Hs as [H32 H34].
    apply negb_true_iff in H34, H92. apply N.leb_le in H32.
    rewrite append_cons. simpl. rewrite H34, H92.
    destruct (N.ltb_spec (N_of_ascii c) 32) as [Hlt|_]; [lia|].
    rewrite (IH Hr). reflexivity.
Qed.

Lemma read_string_plain (s : string) :
  plain s = true ->
  Reference.read (Value (JStr s)) = Reference.Reads (JStr s).
Proof.
  intros Hs. unfold Value, dquote. rewrite append_cons, append_nil.
  unfold Reference.read. simpl.
  change (String "034" "") with dquote.
  rewrite <- (append_nil_r dquote) at 1.
  rewrite (read_chars_plain s "" Hs). reflexivity.
Qed.

Lemma push_closed c r content rest :
  Reference.push c r = Reference.Closed content rest ->
  exists content', r = Reference.Closed content' rest /\ content = String c content'.
Proof. destruct r; simpl; intros H; try discriminate. injection H as <- <-. eauto. Qed.

(** What [read_chars] consumes is at least as long as what it returns, and
    of the same length only when every character stood for itself. *)
Lemma read_chars_length (n : nat) : forall t content rest,
  (String.length t <= n)%nat ->
  Reference.read_chars t = Reference.Closed content rest ->
  (String.length content + 1 + String.length rest <= String.length t)%nat
  /\ ((String.length content + 1 + String.length rest = String.length t)%nat ->
      plain content = true).
Proof.
  induction n as [|n IH]; intros t content rest Hlen Hread.
  - destruct t; [discriminate Hread | simpl in Hlen; lia].
  - destruct t as [|c r]; [discriminate Hread|]. simpl in Hread, Hlen.
    destruct (N.eqb_spec (N_of_ascii c) 34) as [H34|H34].
    { injection Hread as <- <-. simpl. split; [lia | reflexivity]. }
    destruct (N.eqb_spec (N_of_ascii c) 92) as [H92|H92].
    { destruct r as [|e r']; [discriminate Hread|].
      destruct (Reference.unescape e) as [d|].
      - apply push_closed in Hread as (content' & Hread & ->).
        simpl in Hlen. apply IH in Hread as [Hle _]; [|lia].
        simpl. split; lia.
      - destruct (N_of_ascii e =? 117)%N; discriminate Hread. }
    destruct (N.ltb_spec (N_of_ascii c) 32) as [H32|H32]; [discriminate Hread|].
    apply push_closed in Hread as (content' & Hread & ->).
    apply IH in Hread as [Hle Heq]; [|lia].
    simpl. split; [lia|]. intros E.
    rewrite Heq by lia.
    apply N.eqb_neq in H34, H92. apply N.leb_le in H32.
    rewrite H32, H34, H92. reflexivity.
Qed.

Lemma read_string_only_plain (s : string) :
  Reference.read (Value (JStr s)) = Reference.Reads (JStr s) ->
  plain s = true.
Proof.
  unfold Value, dquote. rewrite append_cons, append_nil.
  unfold Reference.read. simpl.
  destruct (Reference.read_chars (s ++ String "034" "")) as [content rest| |] eqn:E;
    try discriminate.
  destruct (Reference.all_ws rest); [|discriminate].
  intros [= ->].
  apply (read_chars_length _ _ _ _ (le_n _)) in E as [Hle Heq].
  rewrite length_append in Hle, Heq. simpl in Hle, Heq.
  apply Heq. lia.
Qed.

Lemma append_assoc (a b c : string) : (a ++ b) ++ c = a ++ (b ++ c).
Proof.
  induction a as [|x a IH]; [reflexivity|].
  rewrite !append_cons, IH. reflexivity.
Qed.

Lemma span_digits_uint (d : Decimal.uint) :
  Reference.span_digits (NilEmpty.string_of_uint d)
  = (NilEmpty.string_of_uint d, "").
Proof.
  induction d; simpl; [reflexivity | rewrite IHd; reflexivity ..].
Qed.

Lemma span_digits_app (ds rest : string) :
  JS.all_digits ds = true -> ends_digits rest ->
  Reference.span_digits (ds ++ rest) = (ds, rest).
Proof.
  intros Hds Hrest. induction ds as [|c ds IH].
  - rewrite append_nil. destruct rest as [|c r]; [reflexivity|].
    simpl in *. rewrite Hrest. reflexivity.
  - simpl in Hds. apply andb_true_iff in Hds as [Hc Hds].
    rewrite append_cons. simpl. unfold Reference.is_digit. rewrite Hc.
    rewrite (IH Hds). reflexivity.
Qed.

Lemma all_digits_app (a b : string) :
  JS.all_digits (a ++ b) = JS.all_digits a && JS.all_digits b.
Proof.
  induction a as [|c a IH]; [reflexivity|].
  rewrite append_cons. simpl. rewrite IH, andb_assoc. reflexivity.
Qed.

Lemma all_digits_zeros (k : nat) : JS.all_digits (JS.zeros k) = true.
Proof. induction k as [|k IH]; [reflexivity | exact IH]. Qed.

Lemma take_drop (k : nat) (s : string) : JS.take k s ++ JS.drop k s = s.
Proof.
  revert s. induction k as [|k IH]; intros [|c s]; try reflexivity.
  simpl. rewrite append_cons, IH. reflexivity.
Qed.

Lemma all_digits_uint (u : Decimal.uint) :
  JS.all_digits (NilEmpty.string_of_uint u) = true.
Proof. induction u; simpl; auto. Qed.

Lemma lstrip0_zeros (k : nat) (d : string) :
  match d with
  | String c _ => (N_of_ascii c =? 48)%N = false
  | EmptyString => True
  end ->
  Reference.lstrip0 (JS.zeros k ++ d) = (k, d).
Proof.
  intros Hd. induction k as [|k IH].
  - rewrite append_nil. destruct d as [|c r]; [reflexivity|].
    simpl. rewrite Hd. reflexivity.
  - simpl JS.zeros. rewrite append_cons. simpl. rewrite IH. reflexivity.
Qed.

Lemma rstrip0_zeros (k : nat) : JS.rstrip0 (JS.zeros k) = "".
Proof. induction k as [|k IH]; [reflexivity|]. simpl. rewrite IH. reflexivity. Qed.

Lemma rstrip0_app_zeros (d : string) (k : nat) :
  JS.rstrip0 (d ++ JS.zeros k) = JS.rstrip0 d.
Proof.
  induction d as [|c d IH].
  - rewrite append_nil. apply rstrip0_zeros.
  - rewrite append_cons. simpl. rewrite IH. reflexivity.
Qed.

Lemma length_zeros (k : nat) : String.length (JS.zeros k) = k.
Proof. induction k as [|k IH]; [reflexivity|]. simpl. rewrite IH. reflexivity. Qed.

Lemma length_take (k : nat) (s : string) :
  (k <= String.length s)%nat -> String.length (JS.take k s) = k.
Proof.
  revert s. induction k as [|k IH]; intros [|c s] H; simpl in *; try lia.
  rewrite IH; lia.
Qed.

(** The plain decimal digits of an integer that is not negative. *)
Lemma toString_digits (n : Z) :
  0 <= n ->
  exists u, JS.toString n = NilEmpty.string_of_uint u
            /\ u <> Decimal.Nil /\ Z.of_uint u = n.
Proof.
  intros Hn. destruct n as [|p|p]; [| |lia].
  - exists (Decimal.D0 Decimal.Nil). repeat split. discriminate.
  - exists (Pos.to_uint p). unfold JS.toString. simpl Z.to_int.
    unfold NilZero.string_of_int, NilZero.string_of_uint.
    pose proof (DecimalPos.Unsigned.to_uint_nonnil p) as Hnil.
    repeat split.
    + destruct (Pos.to_uint p); congruence.
    + exact Hnil.
    + unfold Z.of_uint. rewrite DecimalPos.Unsigned.of_to. reflexivity.
Qed.

Lemma read_exponent_text (ex : option Z) :
  Reference.read_exponent (exp_text ex) = Some (default 0 ex, "").
Proof.
  destruct ex as [e|]; [|reflexivity].
  destruct (toString_digits (Z.abs e) (Z.abs_nonneg e)) as (u & Hu & Hnil & Hval).
  unfold exp_text. rewrite Hu.
  assert (Hbody :
    Reference.read_exponent
      ("e" ++ (if e <? 0 then "-" else "+") ++ NilEmpty.string_of_uint u)
    = match NilEmpty.string_of_uint u, 
            NilEmpty.uint_of_string (NilEmpty.string_of_uint u) with
      | String _ _, Some v =>
          Some (if e <? 0 then - Z.of_uint v else Z.of_uint v, "")
      | _, _ => None
      end).
  { destruct (e <? 0); rewrite !append_cons, !append_nil;
      unfold Reference.read_exponent;
      cbv -[Reference.span_digits NilEmpty.uint_of_string
            NilEmpty.string_of_uint Z.of_uint Z.opp];
      rewrite span_digits_uint;
      destruct (NilEmpty.string_of_uint u); reflexivity. }
  rewrite Hbody, NilEmpty.usu.
  destruct u; try congruence; simpl NilEmpty.string_of_uint; cbv iota;
    rewrite Hval; simpl default; (destruct (Z.ltb_spec e 0); f_equal; f_equal; lia).
Qed.

Lemma read_fraction_text (fs rest : string) :
  JS.all_digits fs = true -> ends_digits rest ->
  match rest with
  | String c _ => (N_of_ascii c =? 46)%N = false
  | EmptyString => True
  end ->
  Reference.read_fraction (frac_text fs ++ rest) = Some (fs, rest).
Proof.
  intros Hfs Hrest Hpoint. destruct fs as [|c fs].
  - simpl frac_text. rewrite append_nil.
    destruct rest as [|c r]; [reflexivity|]. simpl. rewrite Hpoint. reflexivity.
  - unfold frac_text. rewrite append_assoc.
    remember (String c fs) as ds eqn:Eds.
    rewrite append_cons, append_nil. unfold Reference.read_fraction.
    change (N_of_ascii "." =? 46)%N with true. cbv iota.
    rewrite (span_digits_app _ _ Hfs Hrest). rewrite Eds. reflexivity.
Qed.

Lemma exp_text_ends (ex : option Z) :
  ends_digits (exp_text ex)
  /\ match exp_text ex with
     | String c _ => (N_of_ascii c =? 46)%N = false
     | EmptyString => True
     end.
Proof. destruct ex as [e|]; split; try exact I; reflexivity. Qed.

Lemma frac_exp_ends (fs : string) (ex : option Z) :
  ends_digits (frac_text fs ++ exp_text ex).
Proof.
  destruct fs as [|c fs].
  - rewrite append_nil. apply exp_text_ends.
  - reflexivity.
Qed.

(** The reader on a number text given by its parts: sign, integer digits,
    fraction digits, exponent. *)
Lemma read_number_parts (negative : bool) (ds fs : string) (ex : option Z) :
  JS.all_digits ds = true ->
  match ds with
  | String c r => (N_of_ascii c =? 48)%N = true -> r = ""
  | EmptyString => False
  end ->
  JS.all_digits fs = true ->
  Reference.read_number
    ((if negative then "-" else "") ++ ds ++ frac_text fs ++ exp_text ex)
  = Reference.Reads
      (JNum (Reference.decimal negative (ds ++ fs)
               (Z.of_nat (String.length ds) + default 0 ex))).
Proof.
  intros Hds Hlead Hfs.
  unfold Reference.read_number.
  set (rest := frac_text fs ++ exp_text ex).
  assert (Hstrip :
    match (if negative then "-" else "") ++ ds ++ rest with
    | String c r =>
        if (N_of_ascii c =? 45)%N then (true, r)
        else (false, (if negative then "-" else "") ++ ds ++ rest)
    | EmptyString => (false, (if negative then "-" else "") ++ ds ++ rest)
    end = (negative, ds ++ rest)).
  { destruct negative; [reflexivity|]. rewrite append_nil.
    destruct ds as [|c r]; [contradiction|]. rewrite append_cons.
    simpl in Hds. apply andb_true_iff in Hds as [Hc _].
    destruct (N.eqb_spec (N_of_ascii c) 45) as [E|_]; [|reflexivity].
    rewrite E in Hc. discriminate Hc. }
  rewrite Hstrip, (span_digits_app ds rest Hds (frac_exp_ends fs ex)).
  destruct ds as [|d ds']; [contradiction|].
  assert (Hzero : (N_of_ascii d =? 48)%N && negb (String.eqb ds' "") = false).
  { destruct (N_of_ascii d =? 48)%N; [|reflexivity].
    rewrite (Hlead eq_refl). reflexivity. }
  rewrite Hzero. subst rest.
  destruct (exp_text_ends ex) as [He Hp].
  rewrite (read_fraction_text fs _ Hfs He Hp), read_exponent_text.
  reflexivity.
Qed.

Lemma shortest_inv (d : string) :
  JS.shortest d = true ->
  JS.all_digits d = true
  /\ (exists c r, d = String c r /\ (N_of_ascii c =? 48)%N = false)
  /\ JS.rstrip0 d = d.
Proof.
  unfold JS.shortest. intros H.
  apply andb_true_iff in H as [H Hr]. apply andb_true_iff in H as [Hd Hc].
  split; [exact Hd|]. split.
  - destruct d as [|c r]; [discriminate Hc|].
    exists c, r. split; [reflexivity|]. apply negb_true_iff. exact Hc.
  - apply String.eqb_eq. exact Hr.
Qed.

(** The number of digits in shortest form between zeros. *)
Lemma decimal_shortest (negative : bool) (d : string) (z j : nat)
      (text : string) (point n : Z) :
  JS.shortest d = true ->
  -323 <= n <= 309 ->
  text = JS.zeros z ++ d ++ JS.zeros j ->
  point - Z.of_nat z = n ->
  Reference.decimal negative text point = JS.Dec negative d n.
Proof.
  intros Hd Hrange -> <-.
  apply shortest_inv in Hd as (_ & (c & r & -> & Hc) & Hr).
  unfold Reference.decimal. rewrite lstrip0_zeros.
  - rewrite append_cons, <- append_cons, rstrip0_app_zeros, Hr.
    destruct (Z.ltb_spec 309 (point - Z.of_nat z)); [lia|].
    destruct (Z.ltb_spec (point - Z.of_nat z) (-323)); [lia|].
    reflexivity.
  - rewrite append_cons. exact Hc.
Qed.

Lemma canonical_inv (negative : bool) (d : string) (n : Z) :
  JS.canonical (JS.Dec negative d n) = true ->
  JS.shortest d = true /\ -323 <= n <= 309.
Proof.
  simpl. intros H. apply andb_true_iff in H as [H H2].
  apply andb_true_iff in H as [H H1].
  apply Z.leb_le in H1, H2. auto.
Qed.

(** The reader gives back the number that [Number::toString] printed. *)
Lemma read_digits_toString (negative : bool) (d : string) (n : Z) :
  JS.canonical (JS.Dec negative d n) = true ->
  Reference.read_number
    ((if negative then "-" else "") ++ JS.digits_toString d n)
  = Reference.Reads (JNum (JS.Dec negative d n)).
Proof.
  intros Hx. apply canonical_inv in Hx as [Hd Hrange].
  pose proof (shortest_inv d Hd) as (Hdigits & (c & r & Ed & Hc) & Hr).
  unfold JS.digits_toString.
  set (k := Z.of_nat (String.length d)).
  destruct ((k <=? n) && (n <=? 21)) eqn:C1.
  { apply andb_true_iff in C1 as [Hkn _]. apply Z.leb_le in Hkn.
    pose proof (read_number_parts negative (d ++ JS.zeros (Z.to_nat (n - k)))
                  "" None) as H.
    simpl frac_text in H. simpl exp_text in H.
    rewrite !append_nil_r in H. rewrite H; clear H.
    - do 2 f_equal.
      apply (decimal_shortest negative d 0 (Z.to_nat (n - k)) _ _ _ Hd Hrange).
      + reflexivity.
      + rewrite length_append, length_zeros. simpl default. subst k. lia.
    - rewrite all_digits_app, Hdigits, all_digits_zeros. reflexivity.
    - rewrite Ed, append_cons. intros E. rewrite E in Hc. discriminate Hc.
    - reflexivity. }
  destruct ((0 <? n) && (n <=? 21)) eqn:C2.
  { apply andb_true_iff in C2 as [Hn0 Hn21]. apply Z.ltb_lt in Hn0.
    apply andb_false_iff in C1 as [Hkn|Hkn];
      [apply Z.leb_gt in Hkn | rewrite Hn21 in Hkn; discriminate Hkn].
    assert (Hlen : (Z.to_nat n < String.length d)%nat) by (subst k; lia).
    pose proof (take_drop (Z.to_nat n) d) as Htd.
    assert (Hdrop : exists x y, JS.drop (Z.to_nat n) d = String x y).
    { destruct (JS.drop (Z.to_nat n) d) as [|x y] eqn:E; [|eauto].
      rewrite append_nil_r in Htd.
      pose proof (length_take (Z.to_nat n) d ltac:(lia)) as Hl.
      rewrite Htd in Hl. lia. }
    destruct Hdrop as (x & y & Edrop).
    pose proof (read_number_parts negative (JS.take (Z.to_nat n) d)
                  (JS.drop (Z.to_nat n) d) None) as H.
    assert (Efrac : frac_text (JS.drop (Z.to_nat n) d)
                    = "." ++ JS.drop (Z.to_nat n) d).
    { unfold frac_text. rewrite Edrop. reflexivity. }
    rewrite Htd, Efrac in H. simpl exp_text in H. rewrite append_nil_r in H.
    rewrite H; clear H.
    - do 2 f_equal.
      apply (decimal_shortest negative d 0 0 _ _ _ Hd Hrange).
      + simpl JS.zeros. rewrite append_nil, append_nil_r. reflexivity.
      + rewrite length_take by lia. simpl default. lia.
    - rewrite <- Htd, all_digits_app in Hdigits.
      apply andb_true_iff in Hdigits as [Ht _]. exact Ht.
    - rewrite Ed. destruct (Z.to_nat n) as [|m] eqn:En; [lia|]. simpl.
      intros E. rewrite E in Hc. discriminate Hc.
    - rewrite <- Htd, all_digits_app in Hdigits.
      apply andb_true_iff in Hdigits as [_ Ht]. exact Ht. }
  destruct ((-6 <? n) && (n <=? 0)) eqn:C3.
  { apply andb_true_iff in C3 as [_ Hn0]. apply Z.leb_le in Hn0.
    pose proof (read_number_parts negative "0" (JS.zeros (Z.to_nat (- n)) ++ d)
                  None) as H.
    assert (Efrac : frac_text (JS.zeros (Z.to_nat (- n)) ++ d)
                    = "." ++ JS.zeros (Z.to_nat (- n)) ++ d).
    { unfold frac_text.
      destruct (JS.zeros (Z.to_nat (- n)) ++ d) as [|x y] eqn:E; [|reflexivity].
      apply (f_equal String.length) in E.
      rewrite length_append, Ed in E. simpl in E. lia. }
    rewrite Efrac in H. simpl exp_text in H. rewrite append_nil_r in H.
    change ("0." ++ JS.zeros (Z.to_nat (- n)) ++ d)
      with ("0" ++ "." ++ JS.zeros (Z.to_nat (- n)) ++ d).
    rewrite H; clear H.
    - do 2 f_equal.
      apply (decimal_shortest negative d (S (Z.to_nat (- n))) 0 _ _ _
               Hd Hrange).
      + simpl (JS.zeros 0). rewrite append_nil_r. reflexivity.
      + simpl default. change (String.length "0") with 1%nat. lia.
    - reflexivity.
    - intros _. reflexivity.
    - rewrite all_digits_app, all_digits_zeros, Hdigits. reflexivity. }
  rewrite Ed.
  pose proof (read_number_parts negative (String c "") r (Some (n - 1))) as H.
  assert (Etext :
    match r with
    | "" => String c ("e" ++ (if n - 1 <? 0 then "-" else "+")
                          ++ JS.toString (Z.abs (n - 1)))
    | String _ _ => String c ("." ++ r ++ "e"
                                ++ (if n - 1 <? 0 then "-" else "+")
                                ++ JS.toString (Z.abs (n - 1)))
    end = String c "" ++ frac_text r ++ exp_text (Some (n - 1))).
  { destruct r as [|x y]; [reflexivity|].
    unfold frac_text, exp_text. rewrite !append_cons, !append_nil.
    reflexivity. }
  rewrite Etext, H; clear H.
  - do 2 f_equal. rewrite <- Ed.
    apply (decimal_shortest negative d 0 0 _ _ _ Hd Hrange).
    + simpl JS.zeros. rewrite append_nil, append_nil_r, Ed. reflexivity.
    + simpl default. change (String.length (String c "")) with 1%nat. lia.
  - rewrite Ed in Hdigits. simpl in *.
    apply andb_true_iff in Hdigits as [-> _]. reflexivity.
  - intros _. reflexivity.
  - rewrite Ed in Hdigits. simpl in Hdigits.
    apply andb_true_iff in Hdigits as [_ Hr']. exact Hr'.
Qed.

Lemma to_int_nonnil (n : Z) :
  Z.to_int n <> Decimal.Pos Decimal.Nil /\ Z.to_int n <> Decimal.Neg Decimal.Nil.
Proof.
  destruct n as [|p|p]; simpl; split; try discriminate;
    intros [= H]; exact (DecimalPos.Unsigned.to_uint_nonnil p H).
Qed.

Lemma toString_inj (m n : Z) : JS.toString m = JS.toString n -> m = n.
Proof.
  unfold JS.toString. intros H.
  apply (f_equal NilZero.int_of_string) in H.
  destruct (to_int_nonnil m) as [Hm Hm'], (to_int_nonnil n) as [Hn Hn'].
  rewrite !NilZero.isi in H by assumption.
  injection H as H. apply DecimalZ.to_int_inj. exact H.
Qed.

(** A text that [read_number] accepts starts with a sign or a digit, and
    [read] hands it to [read_number]. *)
Lemma read_read_number (text : string) (v : value) :
  Reference.read_number text = Reference.Reads v ->
  Reference.read text = Reference.Reads v.
Proof.
  intros H. destruct text as [|c r]; [discriminate H|].
  assert (Hc : (N_of_ascii c =? 45)%N = true \/ Reference.is_digit c = true).
  { unfold Reference.read_number in H.
    destruct (N_of_ascii c =? 45)%N; [left; reflexivity | right].
    simpl in H. destruct (Reference.is_digit c); [reflexivity|].
    discriminate H. }
  unfold Reference.read.
  assert (Hws : Reference.is_ws c = false).
  { unfold Reference.is_ws, Reference.is_digit in *.
    destruct Hc as [Hc|Hc].
    - apply N.eqb_eq in Hc. rewrite Hc. reflexivity.
    - apply andb_true_iff in Hc as [H1 H2].
      apply N.leb_le in H1, H2.
      repeat (apply orb_false_iff; split); apply N.eqb_neq; lia. }
  simpl Reference.skip_ws. rewrite Hws.
  assert (H34 : (N_of_ascii c =? 34)%N = false).
  { unfold Reference.is_digit in Hc. destruct Hc as [Hc|Hc].
    - apply N.eqb_eq in Hc. rewrite Hc. reflexivity.
    - apply andb_true_iff in Hc as [H1 H2]. apply N.leb_le in H1, H2.
      apply N.eqb_neq. lia. }
  assert (Hbr : ((N_of_ascii c =? 91) || (N_of_ascii c =? 123))%N = false).
  { unfold Reference.is_digit in Hc. destruct Hc as [Hc|Hc].
    - apply N.eqb_eq in Hc. rewrite Hc. reflexivity.
    - apply andb_true_iff in Hc as [H1 H2]. apply N.leb_le in H1, H2.
      apply orb_false_iff; split; apply N.eqb_neq; lia. }
  rewrite H34, Hbr.
  assert (Hnum : (N_of_ascii c =? 45)%N || Reference.is_digit c = true)
    by (destruct Hc as [-> | ->]; [reflexivity | apply orb_true_r]).
  rewrite Hnum. exact H.
Qed.

(** Parsing the text of a number gives the number back, when it is finite;
    negative zero comes back as zero; the texts of the other numbers are
    not JSON. *)
Lemma number_round_trip (x : JS.number) :
  JS.canonical x = true ->
  Reference.read (JS.Number_toString x)
  = match x with
    | JS.NaN | JS.Infinity _ => Reference.Malformed
    | JS.Zero _ => Reference.Reads (JNum (JS.Zero false))
    | JS.Dec _ _ _ => Reference.Reads (JNum x)
    end.
Proof.
  intros Hx. destruct x as [|[]|[]|negative d n]; try reflexivity.
  apply read_read_number. apply read_digits_toString. exact Hx.
Qed.

Lemma rstrip0_pad (s : string) :
  JS.rstrip0 s
  ++ JS.zeros (String.length s - String.length (JS.rstrip0 s)) = s
  /\ (String.length (JS.rstrip0 s) <= String.length s)%nat.
Proof.
  induction s as [|c s [IH Hle]]; [split; reflexivity|].
  simpl JS.rstrip0. destruct (JS.rstrip0 s) as [|x y] eqn:E.
  - destruct (N.eqb_spec (N_of_ascii c) 48) as [Hc|Hc].
    + rewrite append_nil in *. simpl in *. rewrite Nat.sub_0_r in IH.
      rewrite IH. split; [|lia]. f_equal.
      rewrite <- (ascii_N_embedding c), Hc. reflexivity.
    + rewrite append_nil in IH. simpl in *. rewrite Nat.sub_0_r in *.
      rewrite append_cons, append_nil, IH. split; [reflexivity | lia].
  - rewrite append_cons. simpl String.length in *.
    rewrite Nat.sub_succ. rewrite IH. split; [reflexivity | lia].
Qed.

(** An integer of at most 21 digits is printed in plain decimal digits. *)
Lemma Number_toString_int (z : Z) :
  (String.length (JS.toString (Z.abs z)) <= 21)%nat ->
  JS.Number_toString (JS.int z) = JS.toString z.
Proof.
  assert (Hpos : forall p,
    (String.length (JS.toString (Z.pos p)) <= 21)%nat ->
    JS.digits_toString (JS.rstrip0 (JS.toString (Z.pos p)))
      (Z.of_nat (String.length (JS.toString (Z.pos p))))
    = JS.toString (Z.pos p)).
  { intros p Hlen. unfold JS.digits_toString.
    destruct (rstrip0_pad (JS.toString (Z.pos p))) as [Hpad Hle].
    assert (C1 : (Z.of_nat (String.length (JS.rstrip0 (JS.toString (Z.pos p))))
                  <=? Z.of_nat (String.length (JS.toString (Z.pos p))))
                 && (Z.of_nat (String.length (JS.toString (Z.pos p))) <=? 21)
                 = true).
    { apply andb_true_iff. split; apply Z.leb_le; lia. }
    rewrite C1, <- Nat2Z.inj_sub, Nat2Z.id by exact Hle. exact Hpad. }
  destruct z as [|p|p]; intros Hlen; [reflexivity| |].
  - simpl JS.int. simpl JS.Number_toString. rewrite append_nil.
    apply Hpos. exact Hlen.
  - simpl JS.int. simpl JS.Number_toString. simpl Z.abs in Hlen.
    rewrite (Hpos p Hlen). reflexivity.
Qed.

Lemma nzhead_not_D0 (u v : Decimal.uint) : Decimal.nzhead u <> Decimal.D0 v.
Proof. induction u; simpl; try discriminate. exact IHu. Qed.

Lemma to_uint_not_D0 (p : positive) (u : Decimal.uint) :
  Pos.to_uint p <> Decimal.D0 u.
Proof.
  intros H.
  assert (Hn : Decimal.unorm (Pos.to_uint p) = Pos.to_uint p).
  { rewrite <- (DecimalPos.Unsigned.to_of (Pos.to_uint p)).
    rewrite DecimalPos.Unsigned.of_to. reflexivity. }
  rewrite H in Hn. rewrite DecimalFacts.unorm_D0 in Hn. unfold Decimal.unorm in Hn.
  destruct (Decimal.nzhead u) eqn:E;
    try (rewrite <- E in Hn; exact (nzhead_not_D0 _ _ Hn)).
  injection Hn as <-.
  exact (DecimalPos.Unsigned.to_uint_nonzero p H).
Qed.

Lemma rstrip0_shortest (s : string) :
  JS.all_digits s = true ->
  match s with
  | String c _ => (N_of_ascii c =? 48)%N = false
  | EmptyString => False
  end ->
  JS.shortest (JS.rstrip0 s) = true.
Proof.
  intros Hs Hc.
  assert (Hall : forall t, JS.all_digits t = true ->
                           JS.all_digits (JS.rstrip0 t) = true).
  { induction t as [|c t IH]; [reflexivity|]. simpl. intros H.
    apply andb_true_iff in H as [H1 H2].
    destruct (JS.rstrip0 t) as [|x y].
    - destruct (N_of_ascii c =? 48)%N; [reflexivity|]. simpl.
      rewrite H1. reflexivity.
    - cbn [JS.all_digits]. rewrite H1. exact (IH H2). }
  assert (Hidem : forall t, JS.rstrip0 (JS.rstrip0 t) = JS.rstrip0 t).
  { induction t as [|c t IH]; [reflexivity|]. simpl.
    destruct (JS.rstrip0 t) as [|x y] eqn:E.
    - destruct (N_of_ascii c =? 48)%N eqn:Ec; [reflexivity|]. simpl.
      rewrite Ec. reflexivity.
    - cbn [JS.rstrip0] in IH |- *. rewrite IH. reflexivity. }
  unfold JS.shortest. rewrite (Hall s Hs), Hidem, String.eqb_refl.
  destruct s as [|c r]; [contradiction|]. simpl.
  destruct (JS.rstrip0 r); repeat (rewrite Hc; simpl); reflexivity.
Qed.

Lemma toString_pos (p : positive) :
  JS.toString (Z.pos p) = NilEmpty.string_of_uint (Pos.to_uint p).
Proof.
  unfold JS.toString. simpl Z.to_int.
  unfold NilZero.string_of_int, NilZero.string_of_uint.
  pose proof (DecimalPos.Unsigned.to_uint_nonnil p) as Hnil.
  destruct (Pos.to_uint p); congruence.
Qed.

(** The number of an integer of at most 309 digits is in the form that
    [Number::toString] prints from. *)
Lemma int_canonical (z : Z) :
  (String.length (JS.toString (Z.abs z)) <= 309)%nat ->
  JS.canonical (JS.int z) = true.
Proof.
  assert (Hpos : forall p,
            (String.length (JS.toString (Z.pos p)) <= 309)%nat ->
            JS.shortest (JS.rstrip0 (JS.toString (Z.pos p)))
            && (-323 <=? Z.of_nat (String.length (JS.toString (Z.pos p))))
            && (Z.of_nat (String.length (JS.toString (Z.pos p))) <=? 309)
            = true).
  { intros p Hlen. rewrite !andb_true_iff. repeat split.
    - rewrite toString_pos.
      apply rstrip0_shortest; [apply all_digits_uint|].
      pose proof (DecimalPos.Unsigned.to_uint_nonnil p) as Hnil.
      pose proof (to_uint_not_D0 p) as Hz.
      destruct (Pos.to_uint p) as [|u|u|u|u|u|u|u|u|u|u]; try reflexivity.
      + congruence.
      + exfalso. exact (Hz u eq_refl).
    - apply Z.leb_le. lia.
    - apply Z.leb_le. lia. }
  destruct z as [|p|p]; [reflexivity | exact (Hpos p) | exact (Hpos p)].
Qed.

(** C9, as the code has it.  A value that is neither an array nor an object
    is rendered as one row, indented by its level, whose text is the name,
    a colon and a space, and the formatted value, or the formatted value
    alone when there is no name.  A string is formatted between two quote
    characters, as it is, without escapes; a number by number-to-string
    conversion, which gives plain decimal digits for an integer of at most
    21 digits; a boolean as true or false; null as null; undefined by
    string conversion.  Parsing the formatted value as JSON gives the value
    back for null and booleans, for a finite number other than negative
    zero (negative zero comes back as zero; the text of an infinite number
    or of NaN is not JSON), and for a string exactly when it holds no
    quote, no backslash and no control character. *)
Theorem leaf_rendering :
  forall (p : TreeProps) (o : bool) (kids : list Fiber),
    isArray (data p) = false ->
    isObject (data p) = false ->
    render (Node p o kids)
    = [LeafRow (level_of p * 14)
               (match name p with
                | Some n => n ++ ": " ++ Value (data p)
                | None => Value (data p)
                end)]
    /\ (forall s, data p = JStr s -> Value (data p) = dquote ++ s ++ dquote)
    /\ (forall x, data p = JNum x -> Value (data p) = JS.Number_toString x)
    /\ (forall z : Z, data p = JNum (JS.int z) ->
          (String.length (JS.toString (Z.abs z)) <= 21)%nat ->
          Value (data p) = JS.toString z)
    /\ (data p = JBool true -> Value (data p) = "true")
    /\ (data p = JBool false -> Value (data p) = "false")
    /\ (data p = JNull -> Value (data p) = "null")
    /\ (data p = JUndefined -> Value (data p) = "undefined")
    /\ (match data p with
        | JNull | JBool _ => True
        | _ => False
        end ->
        Reference.read (Value (data p)) = Reference.Reads (data p))
    /\ (forall x, data p = JNum x -> JS.canonical x = true ->
          Reference.read (Value (data p))
          = match x with
            | JS.NaN | JS.Infinity _ => Reference.Malformed
            | JS.Zero _ => Reference.Reads (JNum (JS.Zero false))
            | JS.Dec _ _ _ => Reference.Reads (data p)
            end)
    /\ (forall s, data p = JStr s ->
          (Reference.read (Value (data p)) = Reference.Reads (data p)
           <-> plain s = true)).
Proof.
  intros p o kids Harr Hobj.
  repeat apply conj.
  - simpl. rewrite Harr, Hobj. reflexivity.
  - intros s ->. reflexivity.
  - intros x ->. reflexivity.
  - intros z -> Hlen. apply Number_toString_int. exact Hlen.
  - intros ->. reflexivity.
  - intros ->. reflexivity.
  - intros ->. reflexivity.
  - intros ->. reflexivity.
  - destruct (data p) as [| |[]|x|s|items|es]; intros H; try contradiction;
      reflexivity.
  - intros x -> Hx. simpl Value. rewrite (number_round_trip x Hx).
    destruct x; reflexivity.
  - intros s ->. split.
    + apply read_string_only_plain.
    + apply read_string_plain.
Qed.

(** A named integer leaf at level 2; the number 1e21, shown with an
    exponent, and the fractions 1.5 and 1e-7, which parse back; a text
    without special characters, which parses back. *)
Lemma leaf_rendering_witness :
  render (Node {| name := Some "c"; data := JNum 2; level := Some 2;
                  collapsed := None |} false [])
  = [LeafRow 28 "c: 2"]
  /\ Value (JNum (JS.Dec false "1" 22)) = "1e+21"
  /\ Reference.read "1e+21" = Reference.Reads (JNum (JS.Dec false "1" 22))
  /\ Value (JNum (JS.Dec true "15" 1)) = "-1.5"
  /\ Reference.read "-1.5" = Reference.Reads (JNum (JS.Dec true "15" 1))
  /\ Value (JNum (JS.Dec false "1" (-6))) = "1e-7"
  /\ Reference.read "1e-7" = Reference.Reads (JNum (JS.Dec false "1" (-6)))
  /\ Reference.read (Value (JStr "plain text")) = Reference.Reads (JStr "plain text").
Proof.
  assert (Hnum : forall x shown,
            JS.canonical x = true -> JS.Number_toString x = shown ->
            match x with JS.Dec _ _ _ => True | _ => False end ->
            Value (JNum x) = shown
            /\ Reference.read shown = Reference.Reads (JNum x)).
  { intros x shown Hx Hshown Hdec.
    destruct (leaf_rendering {| name := None; data := JNum x;
                                level := None; collapsed := None |} true []
                             eq_refl eq_refl)
      as (_ & _ & Hval & _ & _ & _ & _ & _ & _ & Hread & _).
    specialize (Hval x eq_refl). specialize (Hread x eq_refl Hx).
    simpl data in Hval, Hread. rewrite Hval, Hshown in Hread.
    split; [congruence|]. destruct x; try contradiction. exact Hread. }
  split; [|split; [|split; [|split; [|split; [|split; [|split]]]]]].
  - exact (proj1 (leaf_rendering
                    {| name := Some "c"; data := JNum 2; level := Some 2;
                       collapsed := None |} false [] eq_refl eq_refl)).
  - exact (proj1 (Hnum (JS.Dec false "1" 22) "1e+21" eq_refl eq_refl I)).
  - exact (proj2 (Hnum (JS.Dec false "1" 22) "1e+21" eq_refl eq_refl I)).
  - exact (proj1 (Hnum (JS.Dec true "15" 1) "-1.5" eq_refl eq_refl I)).
  - exact (proj2 (Hnum (JS.Dec true "15" 1) "-1.5" eq_refl eq_refl I)).
  - exact (proj1 (Hnum (JS.Dec false "1" (-6)) "1e-7" eq_refl eq_refl I)).
  - exact (proj2 (Hnum (JS.Dec false "1" (-6)) "1e-7" eq_refl eq_refl I)).
  - destruct (leaf_rendering {| name := None; data := JStr "plain text";
                                level := None; collapsed := None |} true []
                             eq_refl eq_refl)
      as (_ & _ & _ & _ & _ & _ & _ & _ & _ & _ & Hstr).
    apply (Hstr "plain text" eq_refl). reflexivity.
Defined.

(** C9, as the specification words it, fails for strings and for numbers:
    the formatted value of [say "hi"] does not parse, and the formatted
    value of a backslash followed by n parses as a line feed; the number
    that the JSON body 1e999 parses to is infinite, and its formatted
    value, Infinity, does not parse. *)
Lemma quoted_leaf_does_not_round_trip :
  Reference.read (Value (JStr Sample.quoted)) = Reference.Malformed
  /\ Reference.read (Value (JStr Sample.quoted))
     <> Reference.Reads (JStr Sample.quoted)
  /\ Reference.read (Value (JStr Sample.backslash_n))
     = Reference.Reads (JStr Sample.line_feed)
  /\ Reference.read (Value (JStr Sample.backslash_n))
     <> Reference.Reads (JStr Sample.backslash_n)
  /\ Sample.JSON_parse "1e999" = Parsed (JNum (JS.Infinity false))
  /\ Value (JNum (JS.Infinity false)) = "Infinity"
  /\ Reference.read (Value (JNum (JS.Infinity false))) = Reference.Malformed
  /\ Reference.read (Value (JNum (JS.Infinity false)))
     <> Reference.Reads (JNum (JS.Infinity false)).
Proof.
  repeat split; try reflexivity; vm_compute; discriminate.
Qed.

(** Number-to-string conversion on some numbers, and the reader on some
    number texts. *)
Example Number_toString_examples :
  JS.Number_toString (JS.int 0) = "0"
  /\ JS.Number_toString (JS.Zero true) = "0"
  /\ JS.Number_toString (JS.int 1024) = "1024"
  /\ JS.Number_toString (JS.int (-17)) = "-17"
  /\ JS.Number_toString (JS.int (10 ^ 20)) = "100000000000000000000"
  /\ JS.Number_toString (JS.int (10 ^ 21)) = "1e+21"
  /\ JS.Number_toString (JS.Dec false "12345678901234567" 22)
     = "1.2345678901234567e+21"
  /\ JS.Number_toString (JS.Dec false "123456" 3) = "123.456"
  /\ JS.Number_toString (JS.Dec false "1" 0) = "0.1"
  /\ JS.Number_toString (JS.Dec false "1" (-5)) = "0.000001"
  /\ JS.Number_toString (JS.Dec false "1" (-6)) = "1e-7"
  /\ JS.Number_toString (JS.Dec true "15" (-6)) = "-1.5e-7"
  /\ JS.Number_toString (JS.Dec false "17976931348623157" 309)
     = "1.7976931348623157e+308"
  /\ JS.Number_toString (JS.Dec false "5" (-323)) = "5e-324"
  /\ JS.Number_toString JS.NaN = "NaN"
  /\ JS.Number_toString (JS.Infinity true) = "-Infinity".
Proof. repeat split; reflexivity. Qed.

Example read_number_examples :
  Reference.read "1e999" = Reference.Reads (JNum (JS.Infinity false))
  /\ Reference.read "-1e-400" = Reference.Reads (JNum (JS.Zero true))
  /\ Reference.read "1E5" = Reference.Reads (JNum (JS.int 100000))
  /\ Reference.read " 0.50 " = Reference.Reads (JNum (JS.Dec false "5" 0))
  /\ Reference.read "1.0" = Reference.Reads (JNum (JS.int 1))
  /\ Reference.read "-0" = Reference.Reads (JNum (JS.Zero true))
  /\ Reference.read "01" = Reference.Malformed
  /\ Reference.read "1." = Reference.Malformed
  /\ Reference.read ".5" = Reference.Malformed
  /\ Reference.read "1e" = Reference.Malformed
  /\ Reference.read "+1" = Reference.Malformed
  /\ Reference.read "0x10" = Reference.Malformed
  /\ Reference.read "NaN" = Reference.Malformed.
Proof. repeat split; reflexivity. Qed.

(** * Further properties: the collected headers *)

Lemma small_letter_lower (st : bool) (c : ascii) :
  (N_of_ascii c <? 128)%N = true ->
  JS.lower_byte st c = small_letter capitals smalls c.
Proof.
  destruct st, c as [[] [] [] [] [] [] [] []]; intros H;
    first [discriminate H | reflexivity].
Qed.

Lemma small_letter_no_capital (c : ascii) :
  JS.includes capitals (String (small_letter capitals smalls c) "") = true ->
  (N_of_ascii c <? 128)%N = false.
Proof.
  destruct c as [[] [] [] [] [] [] [] []]; vm_compute; intros H;
    first [discriminate H | reflexivity].
Qed.

(** On a header name, [toLowerCase] makes the letters small. *)
Lemma toLowerCase_fold_name (n : string) :
  ascii_name n = true -> JS.toLowerCase n = fold_name n.
Proof.
  unfold JS.toLowerCase. generalize false.
  induction n as [|c n IH]; intros st Hn; [reflexivity|].
  simpl in Hn. apply andb_true_iff in Hn as [Hc Hn].
  simpl. rewrite (small_letter_lower st c Hc), (IH _ Hn). reflexivity.
Qed.

Lemma fold_name_no_capital (n : string) :
  ascii_name n = true -> has_capital (fold_name n) = false.
Proof.
  induction n as [|c n IH]; intros Hn; [reflexivity|].
  simpl in Hn. apply andb_true_iff in Hn as [Hc Hn].
  cbn [fold_name has_capital]. rewrite (IH Hn), orb_false_r.
  destruct (JS.includes capitals (String (small_letter capitals smalls c) ""))
    eqn:E; [|reflexivity].
  apply small_letter_no_capital in E. congruence.
Qed.

Lemma set_property_lookup (o : gmap string string) (n v k : string) :
  k <> "__proto__" ->
  JS.set_property o n v !! k = if String.eqb n k then Some v else o !! k.
Proof.
  intros Hk. unfold JS.set_property.
  destruct (String.eqb_spec n "__proto__") as [->|Hn].
  - destruct (String.eqb_spec "__proto__" k) as [<-|_]; [congruence|reflexivity].
  - destruct (String.eqb_spec n k) as [->|Hne].
    + apply lookup_insert_eq.
    + apply lookup_insert_ne, Hne.
Qed.

Lemma set_property_proto (o : gmap string string) (n v : string) :
  o !! "__proto__" = None -> JS.set_property o n v !! "__proto__" = None.
Proof.
  intros Ho. unfold JS.set_property.
  destruct (String.eqb_spec n "__proto__") as [->|Hn]; [exact Ho|].
  rewrite lookup_insert_ne by exact Hn. exact Ho.
Qed.

Lemma fold_headers_lookup (hs : list (string * string)) :
  Forall (fun nv => ascii_name (fst nv) = true) hs ->
  forall (o : gmap string string) (k : string),
    k <> "__proto__" ->
    fold_left (fun headers kv =>
                 JS.set_property headers (JS.toLowerCase (fst kv)) (snd kv))
              hs o !! k
    = match last_named k hs with Some v => Some v | None => o !! k end.
Proof.
  induction 1 as [|[n v] hs Hn Hhs IH]; intros o k Hk; simpl; [reflexivity|].
  rewrite IH by exact Hk. destruct (last_named k hs); [reflexivity|].
  rewrite set_property_lookup by exact Hk.
  simpl in Hn. rewrite (toLowerCase_fold_name n Hn).
  destruct (String.eqb (fold_name n) k); reflexivity.
Qed.

Lemma fold_headers_proto (hs : list (string * string)) :
  forall o : gmap string string,
    o !! "__proto__" = None ->
    fold_left (fun headers kv =>
                 JS.set_property headers (JS.toLowerCase (fst kv)) (snd kv))
              hs o !! "__proto__" = None.
Proof.
  induction hs as [|[n v] hs IH]; intros o Ho; simpl; [exact Ho|].
  apply IH, set_property_proto, Ho.
Qed.

Lemma last_named_In (k : string) (hs : list (string * string)) (v : string) :
  last_named k hs = Some v ->
  exists n, In (n, v) hs /\ fold_name n = k.
Proof.
  induction hs as [|[n w] hs IH]; simpl; [discriminate|].
  destruct (last_named k hs) as [v'|].
  - intros [= ->]. destruct (IH eq_refl) as (n' & Hin & Hn). eauto.
  - destruct (String.eqb_spec (fold_name n) k) as [<-|_]; [|discriminate].
    intros [= ->]. eauto.
Qed.

Lemma collect_headers_lookup (hs : list (string * string)) (k : string) :
  Forall (fun nv => ascii_name (fst nv) = true) hs ->
  k <> "__proto__" -> collect_headers hs !! k = last_named k hs.
Proof.
  intros Hhs Hk. unfold collect_headers.
  rewrite (fold_headers_lookup hs Hhs) by exact Hk.
  rewrite lookup_empty. destruct (last_named k hs); reflexivity.
Qed.

Lemma collect_headers_proto (hs : list (string * string)) :
  collect_headers hs !! "__proto__" = None.
Proof. unfold collect_headers. apply fold_headers_proto, lookup_empty. Qed.

(** X1.  Reading the collected headers.  The object is created by [{}]:
    under the name [__proto__] a read gives the prototype, whatever the
    headers; under any other name it gives the value of the last header of
    the response whose name, its letters made small, is that name, and
    when there is none a member of [Object.prototype] if the name is one of
    those, [undefined] otherwise.  The three names that [analyze] reads
    are no such members: there the read gives the last header of that name
    in any case, or [undefined]. *)
Theorem headers_last_write_wins :
  forall (hs : list (string * string)) (k : string),
    Forall (fun nv => ascii_name (fst nv) = true) hs ->
    JS.get (collect_headers hs) k
    = (if String.eqb k "__proto__" then JS.Inherited
       else match last_named k hs with
            | Some v => JS.Own v
            | None => if JS.inherited k then JS.Inherited else JS.Undefined
            end)
    /\ (k = "content-length" \/ k = "content-type" \/ k = "date" ->
        collect_headers hs !! k = last_named k hs
        /\ JS.get (collect_headers hs) k
           = match last_named k hs with
             | Some v => JS.Own v
             | None => JS.Undefined
             end).
Proof.
  intros hs k Hhs. split.
  - unfold JS.get. destruct (String.eqb_spec k "__proto__") as [->|Hk].
    + rewrite collect_headers_proto. reflexivity.
    + rewrite (collect_headers_lookup hs k Hhs Hk). reflexivity.
  - intros Hk. unfold JS.get.
    rewrite (collect_headers_lookup hs k Hhs)
      by (destruct Hk as [-> | [-> | ->]]; discriminate).
    split; [reflexivity|].
    destruct (last_named k hs); [reflexivity|].
    destruct Hk as [-> | [-> | ->]]; reflexivity.
Qed.

Lemma headers_last_write_wins_witness :
  let hs := [("Content-Type", "text/html"); ("X-Id", "7");
             ("content-type", "application/json")] in
  JS.get (collect_headers hs) "content-type" = JS.Own "application/json"
  /\ JS.get (collect_headers hs) "Content-Type" = JS.Undefined
  /\ JS.get (collect_headers hs) "constructor" = JS.Inherited
  /\ JS.get (collect_headers (("__proto__", "x") :: hs)) "__proto__"
     = JS.Inherited
  /\ collect_headers hs !! "content-type" = Some "application/json".
Proof.
  intros hs.
  assert (Hhs : Forall (fun nv : string * string => ascii_name (fst nv) = true)
                       hs)
    by (repeat constructor).
  assert (Hhs' : Forall (fun nv : string * string => ascii_name (fst nv) = true)
                        (("__proto__", "x") :: hs))
    by (repeat constructor).
  repeat apply conj.
  - exact (proj1 (headers_last_write_wins hs "content-type" Hhs)).
  - exact (proj1 (headers_last_write_wins hs "Content-Type" Hhs)).
  - exact (proj1 (headers_last_write_wins hs "constructor" Hhs)).
  - exact (proj1 (headers_last_write_wins _ "__proto__" Hhs')).
  - exact (proj1 (proj2 (headers_last_write_wins hs "content-type" Hhs)
                        (or_intror (or_introl eq_refl)))).
Defined.

(** X2.  The own properties of the collected headers: the name of each has
    no capital letter and is not [__proto__], and its value comes from a
    header of the response whose name, its letters made small, is that
    name.  So a read under a name with a capital letter never gives a
    header value: it gives a member of [Object.prototype] or
    [undefined]. *)
Theorem headers_keys_lowercase :
  forall (hs : list (string * string)),
    Forall (fun nv => ascii_name (fst nv) = true) hs ->
    (forall k v,
        collect_headers hs !! k = Some v ->
        has_capital k = false
        /\ k <> "__proto__"
        /\ exists n, In (n, v) hs /\ fold_name n = k)
    /\ (forall k,
          has_capital k = true ->
          JS.get (collect_headers hs) k
          = if JS.inherited k then JS.Inherited else JS.Undefined).
Proof.
  intros hs Hhs.
  assert (Hown : forall k v,
            collect_headers hs !! k = Some v ->
            has_capital k = false /\ k <> "__proto__"
            /\ exists n, In (n, v) hs /\ fold_name n = k).
  { intros k v Hk.
    destruct (String.eqb_spec k "__proto__") as [->|Hne].
    - rewrite collect_headers_proto in Hk. discriminate Hk.
    - rewrite (collect_headers_lookup hs k Hhs Hne) in Hk.
      apply last_named_In in Hk as (n & Hin & Hn).
      split; [|split; [exact Hne | eauto]].
      rewrite <- Hn. apply fold_name_no_capital.
      rewrite List.Forall_forall in Hhs. exact (Hhs (n, v) Hin). }
  split; [exact Hown|].
  intros k Hk. unfold JS.get.
  destruct (collect_headers hs !! k) as [v|] eqn:E; [|reflexivity].
  destruct (Hown k v E) as [Hcap _]. congruence.
Qed.

Lemma headers_keys_lowercase_witness :
  let hs := [("Content-Type", "text/html"); ("X-Id", "7")] in
  (has_capital "x-id" = false
   /\ "x-id" <> "__proto__"
   /\ exists n, In (n, "7") hs /\ fold_name n = "x-id")
  /\ JS.get (collect_headers hs) "X-Id" = JS.Undefined
  /\ JS.get (collect_headers hs) "toString" = JS.Inherited
  /\ JS.get (collect_headers hs) "hasOwnProperty" = JS.Inherited.
Proof.
  intros hs.
  assert (Hhs : Forall (fun nv : string * string => ascii_name (fst nv) = true)
                       hs)
    by (repeat constructor).
  destruct (headers_keys_lowercase hs Hhs) as [Hown Hread].
  repeat apply conj.
  - exact (proj1 (Hown "x-id" "7" eq_refl)).
  - exact (proj1 (proj2 (Hown "x-id" "7" eq_refl))).
  - exact (proj2 (proj2 (Hown "x-id" "7" eq_refl))).
  - exact (Hread "X-Id" eq_refl).
  - exact (Hread "toString" eq_refl).
  - exact (Hread "hasOwnProperty" eq_refl).
Defined.

(** * Further properties: the summary and its panel *)

(** A text takes at least one byte and at most three bytes of UTF-8 per
    code unit of the JavaScript string. *)
Lemma utf8_utf16_bounds (cps : list N) :
  Unicode.utf16_size cps <= Unicode.utf8_size cps
  <= 3 * Unicode.utf16_size cps.
Proof.
  induction cps as [|cp cps IH]; [simpl; lia|].
  cbn [Unicode.utf16_size Unicode.utf8_size].
  unfold Unicode.utf16_width, Unicode.utf8_width.
  destruct (N.ltb_spec cp 128), (N.ltb_spec cp 2048), (N.ltb_spec cp 65536);
    lia.
Qed.

Lemma utf8_size_positive (cps : list N) : cps <> [] -> 0 < Unicode.utf8_size cps.
Proof.
  destruct cps as [|cp cps]; [congruence|]. intros _.
  pose proof (utf8_utf16_bounds cps) as H.
  assert (0 <= Unicode.utf16_size cps).
  { clear H. induction cps as [|c cps IH]; [simpl; lia|].
    cbn [Unicode.utf16_size]. unfold Unicode.utf16_width.
    destruct (c <? 65536)%N; lia. }
  cbn [Unicode.utf8_size]. unfold Unicode.utf8_width.
  destruct (cp <? 128)%N, (cp <? 2048)%N, (cp <? 65536)%N; lia.
Qed.

(** X3.  A size in the summary is a number above zero, and it is absent
    only for an empty body without a usable [content-length]; the size
    measured from a body lies between the number of code units of the body
    (its [length] as a JavaScript string) and three times that number. *)
Theorem sizeBytes_positive :
  forall (StringToNumber : string -> JS.number)
         (headers : gmap string string) (rawText : string),
    let usable :=
      exists s, headers !! "content-length" = Some s /\
                JS.gt0 (StringToNumber s) = true in
    (forall x, size_of StringToNumber headers rawText = Some x ->
               JS.gt0 x = true)
    /\ (size_of StringToNumber headers rawText = None
        <-> rawText = "" /\ ~ usable)
    /\ (forall cps, ~ usable -> rawText = Unicode.encode cps -> cps <> [] ->
          exists n, size_of StringToNumber headers rawText = Some (JS.int n)
                    /\ Unicode.utf16_size cps <= n
                       <= 3 * Unicode.utf16_size cps).
Proof.
  intros StringToNumber headers rawText usable.
  destruct (size_of_cases StringToNumber headers rawText) as [Hhead Hbody].
  fold usable in Hbody.
  assert (Hdec : usable \/ ~ usable).
  { subst usable. destruct (headers !! "content-length") as [s|].
    - destruct (JS.gt0 (StringToNumber s)) eqn:E.
      + left. eauto.
      + right. intros (s' & [= <-] & H). congruence.
    - right. intros (s' & [=] & _). }
  split; [|split].
  - intros x Hx. destruct Hdec as [(s & Hs & Hpos)|Hnot].
    + rewrite (Hhead s Hs Hpos) in Hx. congruence.
    + rewrite (Hbody Hnot) in Hx. destruct rawText as [|c r]; [discriminate Hx|].
      cbn [JS.truthy] in Hx. injection Hx as <-. reflexivity.
  - destruct Hdec as [(s & Hs & Hpos)|Hnot].
    + rewrite (Hhead s Hs Hpos). split; [discriminate|].
      intros [_ Hnot]. exfalso. apply Hnot. exists s. auto.
    + rewrite (Hbody Hnot).
      destruct rawText; simpl; split; try tauto; try discriminate.
      intros [[=] _].
  - intros cps Hnot -> Hcps. rewrite (Hbody Hnot).
    pose proof (utf8_size_positive cps Hcps) as Hpos.
    rewrite encode_bytes.
    destruct (Unicode.encode cps) as [|c r] eqn:E.
    + apply (f_equal String.length) in E. apply (f_equal Z.of_nat) in E.
      rewrite encode_bytes in E. simpl in E. lia.
    + exists (Unicode.utf8_size cps). split; [reflexivity|].
      apply utf8_utf16_bounds.
Qed.

(** The body of the one character U+20AC, one code unit, measures 3 bytes;
    a surrogate pair, two code units, measures 4. *)
Lemma sizeBytes_positive_witness :
  (exists n, size_of Sample.StringToNumber ∅ (Unicode.encode [0x20AC%N])
             = Some (JS.int n) /\ 1 <= n <= 3)
  /\ size_of Sample.StringToNumber ∅ (Unicode.encode [0x20AC%N])
     = Some (JS.int 3)
  /\ size_of Sample.StringToNumber ∅ (Unicode.encode [0x1F600%N])
     = Some (JS.int 4).
Proof.
  split; [|split; reflexivity].
  refine (proj2 (proj2 (sizeBytes_positive Sample.StringToNumber ∅
                          (Unicode.encode [0x20AC%N]))) [0x20AC%N] _ _ _).
  - intros (s & Hs & _). discriminate Hs.
  - reflexivity.
  - discriminate.
Defined.

(** X4.  The two tests of the status agree.  A success always comes from a
    2xx response and is shown with the class [status-ok], the tree panel and
    no error panel; a response outside 2xx is shown with the class
    [status-bad], the error panel and no tree panel.  In both cases the
    status text of the summary is not empty. *)
Theorem status_display_consistent :
  forall (JSON_parse : string -> ParseOutcome)
         (StringToNumber : string -> JS.number)
         (url0 : string) (method0 : Method) (resp : Response) (elapsed : Z)
         (headers : gmap string string) (rawText : string),
    let r := conclude JSON_parse StringToNumber url0 method0 resp elapsed
                      headers rawText in
    let shown := JS.toString (resp_status resp) ++ " "
                 ++ statusText (make_summary StringToNumber url0 method0 resp
                                             elapsed headers rawText) in
    (forall s h d t, r = Success s h d t ->
       200 <= resp_status resp <= 299
       /\ status_cell r = Some ("status-ok", shown)
       /\ is_Some (tree_panel r) /\ error_panel r = None)
    /\ (~ (200 <= resp_status resp <= 299) ->
        status_cell r = Some ("status-bad", shown)
        /\ tree_panel r = None
        /\ error_panel r = Some ("Request failed with status "
                                   ++ JS.toString (resp_status resp)))
    /\ statusText (make_summary StringToNumber url0 method0 resp elapsed
                                headers rawText) <> "".
Proof.
  intros JSON_parse StringToNumber url0 method0 resp elapsed headers rawText
         r shown.
  subst r. rewrite conclude_cases. cbv zeta.
  set (summary := make_summary StringToNumber url0 method0 resp elapsed
                               headers rawText) in *.
  assert (Hst : status summary = resp_status resp) by reflexivity.
  split; [|split].
  - intros s h d t Hr.
    destruct (resp_ok resp) eqn:Hok; simpl in Hr; [|discriminate].
    destruct (truthy_err _); [discriminate|]. injection Hr as <- <- <- <-.
    pose proof (proj1 (resp_ok_range resp) Hok) as Hrange.
    split; [exact Hrange|]. split; [|split; [simpl; eauto | reflexivity]].
    unfold status_cell. simpl result_summary. cbv iota beta. rewrite Hst.
    destruct (Z.leb_spec 200 (resp_status resp)); [|lia].
    destruct (Z.ltb_spec (resp_status resp) 300); [|lia]. reflexivity.
  - intros Hbad. rewrite <- resp_ok_range in Hbad.
    destruct (resp_ok resp) eqn:Hok; [congruence|]. simpl.
    split; [|split; reflexivity].
    unfold status_cell. simpl result_summary. cbv iota beta. rewrite Hst.
    unfold resp_ok in Hok.
    destruct (Z.leb_spec 200 (resp_status resp));
      destruct (Z.ltb_spec (resp_status resp) 300);
      destruct (Z.leb_spec (resp_status resp) 299);
      simpl in *; try reflexivity; try discriminate; lia.
  - subst summary. simpl.
    destruct (resp_statusText resp) eqn:E; simpl; [|discriminate].
    destruct (resp_ok resp); discriminate.
Qed.

Lemma status_display_consistent_witness :
  status_cell (Sample.conclude "https://host/a" GET Sample.resp404 3
                 (collect_headers Sample.json_headers) "{}")
  = Some ("status-bad", "404 Not Found").
Proof.
  apply (proj1 (proj2 (status_display_consistent Sample.JSON_parse
                         Sample.StringToNumber "https://host/a" GET
                         Sample.resp404 3
                         (collect_headers Sample.json_headers) "{}"))).
  simpl. lia.
Defined.

(** X5.  From the response to the tree: a 2xx response whose body is not
    declared as JSON and does not parse is shown as one leaf row, the body
    text between quotes; a 2xx response with an empty body is shown as the
    one leaf row [null]. *)
Theorem text_body_is_one_leaf :
  forall (JSON_parse : string -> ParseOutcome)
         (StringToNumber : string -> JS.number)
         (url0 : string) (method0 : Method) (resp : Response) (elapsed : Z)
         (headers : gmap string string) (rawText : string),
    200 <= resp_status resp <= 299 ->
    (forall m, rawText <> "" -> declares_json headers = false ->
               JSON_parse rawText = SyntaxError m ->
               render <$> tree_panel (conclude JSON_parse StringToNumber url0
                                               method0 resp elapsed headers
                                               rawText)
               = Some [LeafRow 0 (dquote ++ rawText ++ dquote)])
    /\ (rawText = "" ->
        render <$> tree_panel (conclude JSON_parse StringToNumber url0 method0
                                        resp elapsed headers rawText)
        = Some [LeafRow 0 "null"]).
Proof.
  intros JSON_parse StringToNumber url0 method0 resp elapsed headers rawText
         Hok.
  apply resp_ok_range in Hok. rewrite conclude_cases. cbv zeta. rewrite Hok.
  split.
  - intros m Hne Hdecl Hfail. apply truthy_nonempty in Hne.
    unfold parse_body. rewrite Hne, Hdecl, Hfail. reflexivity.
  - intros ->. reflexivity.
Qed.

Lemma text_body_is_one_leaf_witness :
  render <$> tree_panel (Sample.conclude "https://host/a" GET
                           {| resp_status := 200; resp_statusText := "OK";
                              resp_headers := [("content-type", "text/plain")] |}
                           3 (collect_headers [("content-type", "text/plain")])
                           "hello, world")
  = Some [LeafRow 0 (dquote ++ "hello, world" ++ dquote)].
Proof.
  refine (proj1 (text_body_is_one_leaf Sample.JSON_parse Sample.StringToNumber
                   _ _ _ _ _ _ _) "Unexpected token in JSON" _ _ _).
  - simpl. lia.
  - discriminate.
  - reflexivity.
  - reflexivity.
Defined.





(** The sizes at the two thresholds, and the largest size shown in KB. *)
Example formatBytes_thresholds :
  formatBytes (Some 1023) = Text "1023 B"
  /\ formatBytes (Some 1024) = Text "1.0 KB"
  /\ formatBytes (Some 1048575) = Text "1024.0 KB"
  /\ formatBytes (Some 1048576) = Text "1.00 MB"
  /\ formatBytes None = Dash.
Proof. repeat split; reflexivity. Qed.

(** * Further properties: the states of the component *)

Section Steps.

Variable JSON_parse : string -> ParseOutcome.
Variable StringToNumber : string -> JS.number.

(** What one event does to the state: a call, the end of an invocation, a
    suspension at the body read, or the firing of a timer. *)
Lemma step_cases st ev st' :
  step JSON_parse StringToNumber st ev = Some st' ->
  (exists url0 method0 timeoutMs now,
      ev = Invoke url0 method0 timeoutMs now /\
      st' = fst (analyze_start url0 method0 timeoutMs now st))
  \/ (exists c inv r tm,
         settles c ev /\ pending st !! c = Some inv /\
         (tm = timers st \/ tm = timers st ∖ {[c]}) /\
         st' = {| result := Some r; loading := false;
                  controllerRef := controllerRef st; aborted := aborted st;
                  timers := tm; pending := delete c (pending st);
                  created := created st |})
  \/ (exists c inv inv',
         settles c ev /\ pending st !! c = Some inv /\
         st' = {| result := result st; loading := loading st;
                  controllerRef := controllerRef st; aborted := aborted st;
                  timers := timers st; pending := <[c := inv']> (pending st);
                  created := created st |})
  \/ (exists c,
         ev = TimerFired c /\ c ∈ timers st /\
         st' = {| result := result st; loading := loading st;
                  controllerRef := controllerRef st;
                  aborted := {[c]} ∪ aborted st; timers := timers st ∖ {[c]};
                  pending := pending st; created := created st |}).
Proof.
  intros Hstep. destruct ev as [url0 method0 timeoutMs now|c p now|c p|c];
    cbn [step] in Hstep.
  - left. injection Hstep as <-. eauto 8.
  - destruct (pending st !! c) as [inv|] eqn:Hinv; [|discriminate].
    destruct (inv_phase inv); [|discriminate].
    destruct (consistent st c p); [|discriminate].
    injection Hstep as <-.
    assert (Hs : settles c (FetchSettled c p now)) by (left; eauto).
    destruct p as [resp|e].
    + rewrite resume_fulfilled_fetch. destruct (inv_method inv).
      * right. right. left. exists c, inv. eexists. split; [exact Hs|].
        split; [exact Hinv | reflexivity].
      * right. left. exists c, inv. do 2 eexists. split; [exact Hs|]. split; [exact Hinv|].
        split; [right; reflexivity | reflexivity].
    + rewrite resume_rejected_fetch. right. left.
      exists c, inv. do 2 eexists. split; [exact Hs|]. split; [exact Hinv|].
      split; [left; reflexivity | reflexivity].
  - destruct (pending st !! c) as [inv|] eqn:Hinv; [|discriminate].
    destruct (inv_phase inv) as [|resp elapsed headers]; [discriminate|].
    destruct (consistent st c p); [|discriminate].
    injection Hstep as <-.
    assert (Hs : settles c (TextSettled c p)) by (right; eauto).
    right. left. destruct p as [rawText|e].
    + rewrite resume_fulfilled_text.
      exists c, inv. do 2 eexists. split; [exact Hs|]. split; [exact Hinv|].
      split; [right; reflexivity | reflexivity].
    + rewrite resume_rejected_text.
      exists c, inv. do 2 eexists. split; [exact Hs|]. split; [exact Hinv|].
      split; [left; reflexivity | reflexivity].
  - destruct (decide (c ∈ timers st)) as [Hin|]; [|discriminate].
    injection Hstep as <-. right. right. right. exists c. auto.
Qed.

Lemma run_snoc evs : forall st st' ev st'',
  run JSON_parse StringToNumber st evs = Some st' ->
  step JSON_parse StringToNumber st' ev = Some st'' ->
  run JSON_parse StringToNumber st (evs ++ [ev])%list = Some st''.
Proof.
  induction evs as [|e evs IH]; intros st st' ev st'' Hrun Hstep; simpl in *.
  - injection Hrun as ->. rewrite Hstep. reflexivity.
  - destruct (step JSON_parse StringToNumber st e); [|discriminate].
    eapply IH; eauto.
Qed.

(** An invariant, proved once for every run from the initial state. *)
Lemma reachable_ind (P : App -> Prop) :
  P initial ->
  (forall st ev st', reachable JSON_parse StringToNumber st -> P st ->
                     step JSON_parse StringToNumber st ev = Some st' -> P st') ->
  forall st, reachable JSON_parse StringToNumber st -> P st.
Proof.
  intros Hinit Hstep st [evs Hrun].
  assert (Hgen : forall evs st0 st1,
             reachable JSON_parse StringToNumber st0 -> P st0 ->
             run JSON_parse StringToNumber st0 evs = Some st1 -> P st1).
  { clear evs Hrun. induction evs as [|ev evs IH]; intros st0 st1 Hr HP Hrun;
      simpl in Hrun.
    - injection Hrun as <-. exact HP.
    - destruct (step JSON_parse StringToNumber st0 ev) as [st2|] eqn:E;
        [|discriminate].
      apply (IH st2 st1); [|eapply Hstep; eauto|exact Hrun].
      destruct Hr as [evs0 Hr]. exists (evs0 ++ [ev])%list.
      eapply run_snoc; eauto. }
  apply (Hgen evs initial st); [exists []; reflexivity | exact Hinit | exact Hrun].
Qed.

End Steps.

(** X7.  While [loading] is set, [result] is empty and the invocation of
    the controller in [controllerRef] is still suspended: the page shows no
    old result and no spinner without a request. *)
Theorem loading_means_in_flight :
  forall (JSON_parse : string -> ParseOutcome)
         (StringToNumber : string -> JS.number) (st : App),
    reachable JSON_parse StringToNumber st ->
    loading st = true ->
    result st = None
    /\ exists c inv, controllerRef st = Some c /\ pending st !! c = Some inv.
Proof.
  intros JSON_parse StringToNumber st Hreach. revert st Hreach.
  apply (reachable_ind JSON_parse StringToNumber
           (fun st => loading st = true ->
                      result st = None
                      /\ exists c inv, controllerRef st = Some c
                                       /\ pending st !! c = Some inv)).
  - discriminate.
  - intros st ev st' _ IH Hstep Hload.
    apply step_cases in Hstep
      as [(url0 & method0 & timeoutMs & now & -> & ->)
         |[(c & inv & r & tm & _ & _ & _ & ->)
          |[(c & inv & inv' & _ & Hc & ->)
           |(c & -> & _ & ->)]]].
    + rewrite analyze_start_eq. simpl. split; [reflexivity|].
      do 2 eexists. split; [reflexivity|]. apply lookup_insert_eq.
    + discriminate Hload.
    + simpl in *. destruct (IH Hload) as (Hres & c0 & inv0 & Hcur & Hpend).
      split; [exact Hres|]. exists c0.
      destruct (decide (c = c0)) as [->|Hne].
      * exists inv'. split; [exact Hcur | apply lookup_insert_eq].
      * exists inv0. split; [exact Hcur|].
        rewrite lookup_insert_ne by exact Hne. exact Hpend.
    + simpl in *. exact (IH Hload).
Qed.

Lemma loading_means_in_flight_witness :
  result Sample.second_pending = None
  /\ exists c inv, controllerRef Sample.second_pending = Some c
                   /\ pending Sample.second_pending !! c = Some inv.
Proof.
  apply (loading_means_in_flight Sample.JSON_parse Sample.StringToNumber).
  - exists Sample.two_calls. vm_compute. reflexivity.
  - reflexivity.
Defined.

(** X8.  When no invocation is suspended, [loading] is clear, and after at
    least one call [result] holds an outcome: every call that has ended has
    left a result on the page. *)
Theorem idle_shows_result :
  forall (JSON_parse : string -> ParseOutcome)
         (StringToNumber : string -> JS.number) (st : App),
    reachable JSON_parse StringToNumber st ->
    pending st = ∅ ->
    loading st = false /\ (created st <> 0%nat -> result st <> None).
Proof.
  intros JSON_parse StringToNumber st Hreach. revert st Hreach.
  apply (reachable_ind JSON_parse StringToNumber
           (fun st => pending st = ∅ ->
                      loading st = false
                      /\ (created st <> 0%nat -> result st <> None))).
  - intros _. split; [reflexivity|]. intros H. exfalso. apply H. reflexivity.
  - intros st ev st' _ IH Hstep Hidle.
    apply step_cases in Hstep
      as [(url0 & method0 & timeoutMs & now & -> & ->)
         |[(c & inv & r & tm & _ & _ & _ & ->)
          |[(c & inv & inv' & _ & Hc & ->)
           |(c & -> & _ & ->)]]].
    + rewrite analyze_start_eq in Hidle. simpl in Hidle.
      exfalso. exact (insert_non_empty _ _ _ Hidle).
    + simpl. split; [reflexivity | discriminate].
    + simpl in Hidle. exfalso. exact (insert_non_empty _ _ _ Hidle).
    + simpl in *. exact (IH Hidle).
Qed.

Lemma idle_shows_result_witness :
  loading Sample.first_failed = false
  /\ (created Sample.first_failed <> 0%nat -> result Sample.first_failed <> None).
Proof.
  apply (idle_shows_result Sample.JSON_parse Sample.StringToNumber).
  - exists [Invoke "https://host/a" GET 15000 0;
            FetchSettled 0%nat (Rejected Sample.networkError) 40].
    vm_compute. reflexivity.
  - vm_compute. reflexivity.
Defined.

(** X9.  Every live invocation has its timer armed, so the timer can fire,
    and when it does the signal of that invocation has fired. *)
Theorem live_request_has_timer :
  forall (JSON_parse : string -> ParseOutcome)
         (StringToNumber : string -> JS.number) (st : App) (c : nat),
    reachable JSON_parse StringToNumber st ->
    live st c ->
    c ∈ timers st
    /\ exists st', step JSON_parse StringToNumber st (TimerFired c) = Some st'
                   /\ c ∈ aborted st' /\ ~ live st' c.
Proof.
  intros JSON_parse StringToNumber st c Hreach Hlive.
  assert (Hin : c ∈ timers st).
  { revert st Hreach c Hlive. apply (reachable_ind JSON_parse StringToNumber
      (fun st => forall c, live st c -> c ∈ timers st)).
    - intros c [[inv H] _]. simpl in H. rewrite lookup_empty in H. discriminate.
    - intros st ev st' Hreach IH Hstep c [[i Hp] Hna].
      pose proof (consistent_reachable _ _ _ Hreach) as [_ _ _ _ Hl].
      apply step_cases in Hstep
        as [(url0 & method0 & timeoutMs & now & -> & ->)
           |[(c1 & inv & r & tm & _ & Hc1 & Htm & ->)
            |[(c1 & inv & inv' & _ & Hc1 & ->)
             |(c1 & -> & _ & ->)]]].
      + rewrite analyze_start_eq in Hp, Hna |- *. simpl in *.
        apply lookup_insert_Some in Hp as [[<- _]|[Hne Hp]].
        * apply elem_of_union_l, elem_of_singleton. reflexivity.
        * apply elem_of_union_r, IH. split; [eauto|].
          destruct (controllerRef st); [|exact Hna].
          intros Hin. apply Hna, elem_of_union_r, Hin.
      + simpl in *. apply lookup_delete_Some in Hp as [Hne Hp].
        assert (Hc : c ∈ timers st) by (apply IH; split; eauto).
        destruct Htm as [-> | ->]; [exact Hc|].
        apply elem_of_difference. split; [exact Hc|].
        intros Heq. apply elem_of_singleton in Heq. congruence.
      + simpl in *. apply IH. split; [|exact Hna].
        apply lookup_insert_Some in Hp as [[<- _]|[_ Hp]]; eauto.
      + simpl in *. apply elem_of_difference. split.
        * apply IH. split; [eauto|]. intros Hin. apply Hna, elem_of_union_r, Hin.
        * intros Heq. apply Hna, elem_of_union_l, Heq. }
  split; [exact Hin|].
  cbn [step]. rewrite decide_True by exact Hin. eexists. split; [reflexivity|].
  simpl. split; [apply elem_of_union_l, elem_of_singleton; reflexivity|].
  intros [_ Hna]. apply Hna. simpl.
  apply elem_of_union_l, elem_of_singleton. reflexivity.
Qed.

Lemma live_request_has_timer_witness :
  1%nat ∈ timers Sample.second_pending
  /\ exists st', Sample.step Sample.second_pending (TimerFired 1%nat) = Some st'
                 /\ 1%nat ∈ aborted st' /\ ~ live st' 1%nat.
Proof.
  apply (live_request_has_timer Sample.JSON_parse Sample.StringToNumber).
  - exists Sample.two_calls. vm_compute. reflexivity.
  - split; [vm_compute; eauto|]. vm_compute. intros H. discriminate H.
Defined.

Lemma step_fetch_settled JSON_parse StringToNumber st c inv p now :
  pending st !! c = Some inv -> inv_phase inv = AwaitFetch ->
  c ∉ aborted st ->
  step JSON_parse StringToNumber st (FetchSettled c p now)
  = Some (fst (resume c inv (after_fetch JSON_parse StringToNumber c inv p now)
                      st)).
Proof.
  intros Hp Hph Hna. cbn [step]. rewrite Hp, Hph. unfold consistent.
  rewrite decide_False by exact Hna. reflexivity.
Qed.

Lemma step_text_settled JSON_parse StringToNumber st c inv resp elapsed headers
      p :
  pending st !! c = Some inv -> inv_phase inv = AwaitText resp elapsed headers ->
  c ∉ aborted st ->
  step JSON_parse StringToNumber st (TextSettled c p)
  = Some (fst (resume c inv (after_text JSON_parse StringToNumber c inv resp
                                        elapsed headers p) st)).
Proof.
  intros Hp Hph Hna. cbn [step]. rewrite Hp, Hph. unfold consistent.
  rewrite decide_False by exact Hna. reflexivity.
Qed.

Lemma fresh_controller_not_aborted JSON_parse StringToNumber st :
  reachable JSON_parse StringToNumber st ->
  created st ∉ match controllerRef st with
               | Some c => {[c]} ∪ aborted st
               | None => aborted st
               end.
Proof.
  intros Hreach. apply consistent_reachable in Hreach as [_ Hc Ha _ _].
  intros Hin. destruct (controllerRef st) as [c0|].
  - apply elem_of_union in Hin as [Hin|Hin].
    + apply elem_of_singleton in Hin. specialize (Hc c0 eq_refl). lia.
    + specialize (Ha _ Hin). lia.
  - specialize (Ha _ Hin). lia.
Qed.

(** X10.  A call that is answered, from any reachable state.  A [GET] call
    whose [fetch] and body read both fulfil leaves the outcome of the
    response in [result], with [timeMs] the difference of the two clock
    readings, clears [loading], disarms its timer and leaves the other
    suspended invocations as they were.  A [HEAD] call ends when [fetch]
    fulfils, with the empty body, and never reads a body. *)
Theorem answered_call :
  forall (JSON_parse : string -> ParseOutcome)
         (StringToNumber : string -> JS.number) (st : App)
         (url0 : string) (timeoutMs now now' : Z) (resp : Response)
         (text : string),
    reachable JSON_parse StringToNumber st ->
    (exists st',
        run JSON_parse StringToNumber st
            [Invoke url0 GET timeoutMs now;
             FetchSettled (created st) (Fulfilled resp) now';
             TextSettled (created st) (Fulfilled text)] = Some st'
        /\ result st'
           = Some (conclude JSON_parse StringToNumber url0 GET resp
                            (now' - now) (collect_headers (resp_headers resp))
                            text)
        /\ loading st' = false
        /\ pending st' = pending st
        /\ created st ∉ timers st')
    /\ (exists st',
           run JSON_parse StringToNumber st
               [Invoke url0 HEAD timeoutMs now;
                FetchSettled (created st) (Fulfilled resp) now'] = Some st'
           /\ result st'
              = Some (conclude JSON_parse StringToNumber url0 HEAD resp
                               (now' - now)
                               (collect_headers (resp_headers resp)) "")
           /\ loading st' = false
           /\ forall p, step JSON_parse StringToNumber st'
                             (TextSettled (created st) p) = None).
Proof.
  intros JSON_parse StringToNumber st url0 timeoutMs now now' resp text Hreach.
  pose proof (consistent_reachable _ _ _ Hreach) as [Hp _ _ _ _].
  pose proof (fresh_controller_not_aborted _ _ _ Hreach) as Hna.
  assert (Hfresh : pending st !! created st = None).
  { destruct (pending st !! created st) eqn:E; [|reflexivity].
    specialize (Hp (created st) ltac:(eauto)). lia. }
  split.
  - cbn [run]. rewrite step_invoke, analyze_start_eq. cbn [fst].
    erewrite step_fetch_settled;
      [|apply lookup_insert_eq | reflexivity | exact Hna].
    rewrite resume_fulfilled_fetch. cbn [inv_method fst].
    erewrite step_text_settled;
      [|apply lookup_insert_eq | reflexivity | exact Hna].
    rewrite resume_fulfilled_text. cbn [fst].
    eexists. split; [reflexivity|]. simpl.
    split; [reflexivity|]. split; [reflexivity|]. split.
    + rewrite insert_insert_eq, delete_insert_eq.
      apply delete_id, Hfresh.
    + intros Hin. apply elem_of_difference in Hin as [_ Hin].
      apply Hin, elem_of_singleton. reflexivity.
  - cbn [run]. rewrite step_invoke, analyze_start_eq. cbn [fst].
    erewrite step_fetch_settled;
      [|apply lookup_insert_eq | reflexivity | exact Hna].
    rewrite resume_fulfilled_fetch. cbn [inv_method fst].
    eexists. split; [reflexivity|]. simpl.
    split; [reflexivity|]. split; [reflexivity|].
    intros p. rewrite lookup_delete_eq. reflexivity.
Qed.

Lemma answered_call_witness :
  exists st',
    Sample.run initial
               [Invoke "https://host/a" HEAD 15000 5;
                FetchSettled 0%nat (Fulfilled Sample.resp200) 47] = Some st'
    /\ result st'
       = Some (Sample.conclude "https://host/a" HEAD Sample.resp200 42
                               (collect_headers Sample.json_headers) "")
    /\ loading st' = false
    /\ forall p, Sample.step st' (TextSettled 0%nat p) = None.
Proof.
  apply (fun H => proj2 (answered_call Sample.JSON_parse Sample.StringToNumber
                           initial "https://host/a" 15000 5 47 Sample.resp200
                           "" H)).
  exists []. reflexivity.
Defined.

(** X11.  One request per call, no retries.  A call of [analyze] makes
    its own invocation wait for [fetch] and changes no other wait; no other
    event makes an invocation wait for [fetch]: after a response, a
    rejection, a body or a timer, the invocations that wait for [fetch] did
    so before, and the resumed one is not among them.  So in a run without
    calls, an invocation that does not wait for [fetch] never does. *)
Theorem one_request_per_call :
  forall (JSON_parse : string -> ParseOutcome)
         (StringToNumber : string -> JS.number),
    (forall (st : App) (ev : Event) (st' : App),
        step JSON_parse StringToNumber st ev = Some st' ->
        if is_invoke ev
        then forall c, awaits_fetch st' c <-> c = created st \/ awaits_fetch st c
        else forall c, awaits_fetch st' c ->
                       awaits_fetch st c /\ ~ settles c ev)
    /\ (forall (evs : list Event) (st st' : App) (c : nat),
          run JSON_parse StringToNumber st evs = Some st' ->
          List.filter is_invoke evs = [] ->
          ~ awaits_fetch st c -> ~ awaits_fetch st' c).
Proof.
  intros JSON_parse StringToNumber.
  assert (Hstep : forall st ev st',
    step JSON_parse StringToNumber st ev = Some st' ->
    if is_invoke ev
    then forall c, awaits_fetch st' c <-> c = created st \/ awaits_fetch st c
    else forall c, awaits_fetch st' c -> awaits_fetch st c /\ ~ settles c ev).
  { intros st ev st' H.
    assert (Hdel : forall c r tm c',
      awaits_fetch {| result := r; loading := false;
                      controllerRef := controllerRef st;
                      aborted := aborted st; timers := tm;
                      pending := delete c (pending st);
                      created := created st |} c' ->
      awaits_fetch st c' /\ c' <> c).
    { intros c r tm c' (inv & Hinv & Hph). simpl in Hinv.
      apply lookup_delete_Some in Hinv as [Hne Hinv].
      split; [exists inv; auto | congruence]. }
    destruct ev as [url0 method0 timeoutMs now|c p now|c p|c];
      cbn [step is_invoke] in *.
    - injection H as <-. rewrite analyze_start_eq. intros c.
      unfold awaits_fetch. simpl.
      destruct (decide (c = created st)) as [->|Hne].
      + rewrite lookup_insert_eq. split; [auto|]. intros _.
        eexists. split; reflexivity.
      + rewrite lookup_insert_ne by congruence. split; [auto|].
        intros [Hc|Hc]; [congruence | exact Hc].
    - destruct (pending st !! c) as [inv|] eqn:Hinv; [|discriminate].
      destruct (inv_phase inv); [|discriminate].
      destruct (consistent st c p); [|discriminate].
      injection H as <-. intros c' Hc'.
      assert (Hs : c' <> c -> ~ settles c' (FetchSettled c p now)).
      { intros Hne [(q & t & [= E _ _])|(q & [=])]. congruence. }
      destruct p as [resp|e].
      + rewrite resume_fulfilled_fetch in Hc'. destruct (inv_method inv).
        * destruct Hc' as (inv' & Hinv' & Hph). simpl in Hinv'.
          destruct (decide (c' = c)) as [->|Hne].
          -- rewrite lookup_insert_eq in Hinv'. injection Hinv' as <-.
             discriminate Hph.
          -- rewrite lookup_insert_ne in Hinv' by congruence.
             split; [exists inv'; auto | auto].
        * apply Hdel in Hc' as [Hc' Hne]. auto.
      + rewrite resume_rejected_fetch in Hc'.
        apply Hdel in Hc' as [Hc' Hne]. auto.
    - destruct (pending st !! c) as [inv|] eqn:Hinv; [|discriminate].
      destruct (inv_phase inv) as [|resp elapsed headers]; [discriminate|].
      destruct (consistent st c p); [|discriminate].
      injection H as <-. intros c' Hc'.
      assert (Hs : c' <> c -> ~ settles c' (TextSettled c p)).
      { intros Hne [(q & t & [=])|(q & [= E _])]. congruence. }
      destruct p as [rawText|e].
      + rewrite resume_fulfilled_text in Hc'.
        apply Hdel in Hc' as [Hc' Hne]. auto.
      + rewrite resume_rejected_text in Hc'.
        apply Hdel in Hc' as [Hc' Hne]. auto.
    - destruct (decide (c ∈ timers st)) as [Hin|]; [|discriminate].
      injection H as <-. intros c' Hc'. split; [exact Hc'|].
      intros [(q & t & [=])|(q & [=])]. }
  split; [exact Hstep|].
  induction evs as [|ev evs IH]; intros st st' c Hrun Hcalls Hc;
    simpl in Hrun.
  - injection Hrun as <-. exact Hc.
  - destruct (step JSON_parse StringToNumber st ev) as [st1|] eqn:E;
      [|discriminate].
    simpl in Hcalls. destruct (is_invoke ev) eqn:Hev; [discriminate|].
    apply (IH st1 st' c Hrun Hcalls).
    intros Hc1. apply Hc. specialize (Hstep st ev st1 E). rewrite Hev in Hstep.
    exact (proj1 (Hstep c Hc1)).
Qed.

(** Two calls, then the rejection of the first fetch: before it the two
    invocations wait for [fetch], after it only the second one. *)
Lemma one_request_per_call_witness :
  (forall c, awaits_fetch Sample.first_rejected c ->
             awaits_fetch Sample.second_pending c
             /\ ~ settles c Sample.first_settles)
  /\ awaits_fetch Sample.second_pending 0%nat
  /\ awaits_fetch Sample.second_pending 1%nat
  /\ ~ awaits_fetch Sample.first_rejected 0%nat
  /\ awaits_fetch Sample.first_rejected 1%nat.
Proof.
  assert (Hin : forall st c inv,
            pending st !! c = Some inv -> inv_phase inv = AwaitFetch ->
            awaits_fetch st c) by (intros st c inv H1 H2; exists inv; auto).
  split; [|repeat apply conj].
  - exact (proj1 (one_request_per_call Sample.JSON_parse Sample.StringToNumber)
                 Sample.second_pending Sample.first_settles
                 Sample.first_rejected ltac:(vm_compute; reflexivity)).
  - eapply Hin; vm_compute; reflexivity.
  - eapply Hin; vm_compute; reflexivity.
  - intros (inv & H & _). vm_compute in H. discriminate H.
  - eapply Hin; vm_compute; reflexivity.
Defined.

(** * Further properties: the component behind its button *)

Section Clicks.

Variable JSON_parse : string -> ParseOutcome.
Variable StringToNumber : string -> JS.number.

Lemma click_step_step st ev st' :
  click_step JSON_parse StringToNumber st ev = Some st' ->
  step JSON_parse StringToNumber st ev = Some st'
  /\ (is_invoke ev = true -> loading st = false).
Proof.
  unfold click_step, button_disabled. destruct ev; try (intros H; split;
    [exact H | discriminate]).
  destruct (loading st); simpl; [discriminate|].
  destruct (negb _); [discriminate|]. auto.
Qed.

Lemma one_in_flight_step st ev st' :
  one_in_flight st ->
  click_step JSON_parse StringToNumber st ev = Some st' ->
  one_in_flight st'.
Proof.
  intros Hone Hstep. apply click_step_step in Hstep as [Hstep Hgate].
  apply step_cases in Hstep
    as [(url0 & method0 & timeoutMs & now & -> & ->)
       |[(c & inv & r & tm & _ & Hc & _ & ->)
        |[(c & inv & inv' & _ & Hc & ->)
         |(c & -> & _ & ->)]]].
  - specialize (Hgate eq_refl).
    destruct Hone as [[_ Hidle]|[Hload _]]; [|congruence].
    right. rewrite analyze_start_eq. simpl. rewrite Hidle.
    split; [reflexivity|]. split; [reflexivity|]. eauto.
  - left. simpl. split; [reflexivity|].
    destruct Hone as [[_ Hidle]|(_ & _ & c0 & inv0 & _ & Hpend)].
    + rewrite Hidle, lookup_empty in Hc. discriminate.
    + rewrite Hpend in Hc |- *.
      apply lookup_singleton_Some in Hc as [<- _]. apply delete_singleton_eq.
  - destruct Hone as [[_ Hidle]|(Hload & Hres & c0 & inv0 & Hcur & Hpend)].
    + rewrite Hidle, lookup_empty in Hc. discriminate.
    + right. simpl. split; [exact Hload|]. split; [exact Hres|].
      exists c0, inv'. split; [exact Hcur|]. rewrite Hpend in Hc |- *.
      apply lookup_singleton_Some in Hc as [<- _]. apply insert_singleton_eq.
  - destruct Hone as [[Hload Hidle]|(Hload & Hres & c0 & inv0 & Hcur & Hpend)].
    + left. simpl. auto.
    + right. simpl. eauto 8.
Qed.

Lemma one_in_flight_run evs : forall st st',
  one_in_flight st ->
  click_run JSON_parse StringToNumber st evs = Some st' ->
  one_in_flight st'.
Proof.
  induction evs as [|ev evs IH]; intros st st' Hone Hrun; simpl in Hrun.
  - injection Hrun as <-. exact Hone.
  - destruct (click_step JSON_parse StringToNumber st ev) as [st1|] eqn:E;
      [|discriminate].
    eapply IH; [|exact Hrun]. eapply one_in_flight_step; eauto.
Qed.

End Clicks.

(** X12.  Behind the button, calls do not overlap.  In every state that the
    page reaches by clicks, settled promises and timers, at most one
    invocation is suspended, and it is the one of [controllerRef]; while it
    is, the button takes no click; and only that invocation is ever resumed,
    so [result] is written by the most recent call alone. *)
Theorem clicks_do_not_overlap :
  forall (JSON_parse : string -> ParseOutcome)
         (StringToNumber : string -> JS.number)
         (evs : list Event) (st : App),
    click_run JSON_parse StringToNumber initial evs = Some st ->
    (forall c inv, pending st !! c = Some inv ->
                   controllerRef st = Some c /\ pending st = {[c := inv]}
                   /\ loading st = true)
    /\ (pending st <> ∅ ->
        forall url0 method0 timeoutMs now,
          click_step JSON_parse StringToNumber st
                     (Invoke url0 method0 timeoutMs now) = None)
    /\ (forall c ev st',
          settles c ev ->
          click_step JSON_parse StringToNumber st ev = Some st' ->
          controllerRef st = Some c).
Proof.
  intros JSON_parse StringToNumber evs st Hrun.
  assert (Hone : one_in_flight st).
  { eapply one_in_flight_run; [|exact Hrun]. left. split; reflexivity. }
  assert (Hpend : forall c inv, pending st !! c = Some inv ->
                                controllerRef st = Some c
                                /\ pending st = {[c := inv]}
                                /\ loading st = true).
  { intros c inv Hc.
    destruct Hone as [[_ Hidle]|(Hload & _ & c0 & inv0 & Hcur & Hp)].
    - rewrite Hidle, lookup_empty in Hc. discriminate.
    - rewrite Hp in Hc. apply lookup_singleton_Some in Hc as [<- <-]. auto. }
  split; [exact Hpend|]. split.
  - intros Hne url0 method0 timeoutMs now. unfold click_step, button_disabled.
    destruct Hone as [[_ Hidle]|(Hload & _)]; [congruence|].
    rewrite Hload. reflexivity.
  - intros c ev st' Hs Hstep.
    apply click_step_step in Hstep as [Hstep _].
    assert (Hc : is_Some (pending st !! c)).
    { destruct Hs as [(p & now & ->)|(p & ->)]; cbn [step] in Hstep;
        destruct (pending st !! c); eauto; discriminate. }
    destruct Hc as [inv Hc]. apply (Hpend c inv Hc).
Qed.

Lemma clicks_do_not_overlap_witness :
  click_step Sample.JSON_parse Sample.StringToNumber Sample.first_pending
             (Invoke "https://host/b" GET 15000 10) = None.
Proof.
  refine (proj1 (proj2 (clicks_do_not_overlap Sample.JSON_parse
                          Sample.StringToNumber
                          [Invoke "https://host/a" GET 15000 0]
                          Sample.first_pending _)) _ _ _ _ _).
  - vm_compute. reflexivity.
  - vm_compute. discriminate.
Defined.

(** * Further properties: the mounted tree *)

Lemma value_ind' (P : value -> Prop) :
  P JUndefined -> P JNull -> (forall b, P (JBool b)) -> (forall n, P (JNum n)) ->
  (forall s, P (JStr s)) ->
  (forall items, Forall P items -> P (JArr items)) ->
  (forall es, Forall (fun kv => P (snd kv)) es -> P (JObj es)) ->
  forall v, P v.
Proof.
  intros Hu Hn Hb Hz Hs Ha Ho. fix IH 1. intros [| |b|n|s|items|es].
  - exact Hu.
  - exact Hn.
  - apply Hb.
  - apply Hz.
  - apply Hs.
  - apply Ha. induction items as [|x items IHi]; constructor; [apply IH | exact IHi].
  - apply Ho. induction es as [|[k x] es IHe]; constructor; [apply IH | exact IHe].
Qed.

Lemma mounted_from_eq (p q : TreeProps) (o : bool) (kids : list Fiber) :
  mounted_from p (Node q o kids)
  <-> q = p /\ if o then Forall2 mounted_from (child_props p) kids
               else kids = [].
Proof.
  simpl. destruct o; [|tauto].
  generalize (child_props p). intros ps.
  assert (H : forall ks ps,
             (fix all (ps : list TreeProps) (ks : list Fiber) {struct ks} : Prop :=
                match ks, ps with
                | [], [] => True
                | k :: ks', cp :: ps' => mounted_from cp k /\ all ps' ks'
                | _, _ => False
                end) ps ks <-> Forall2 mounted_from ps ks).
  { induction ks as [|k ks IHk]; intros [|cp ps'].
    - split; [constructor | trivial].
    - split; [contradiction | intros H; inversion H].
    - split; [contradiction | intros H; inversion H].
    - rewrite IHk. split.
      + intros [Hk Hks]. constructor; assumption.
      + intros H. inversion H; subst. auto. }
  rewrite H. tauto.
Qed.

Lemma mapi_from_lookup {A B} (f : nat -> A -> B) (l : list A) :
  forall k i, mapi_from f k l !! i = f (k + i)%nat <$> l !! i.
Proof.
  induction l as [|x l IH]; intros k [|i]; simpl; try reflexivity.
  - rewrite Nat.add_0_r. reflexivity.
  - rewrite IH. replace (S k + i)%nat with (k + S i)%nat by lia. reflexivity.
Qed.

Lemma child_props_lookup (p : TreeProps) (i : nat) :
  child_props p !! i
  = (fun kv => {| name := Some (fst kv); data := snd kv;
                  level := Some (level_of p + 1); collapsed := None |})
      <$> entries (data p) !! i.
Proof. unfold child_props. apply lookup_map. Qed.

Lemma child_data_In (p cp : TreeProps) :
  In cp (child_props p) ->
  match data p with
  | JArr items => In (data cp) items
  | JObj es => In (data cp) (map snd es)
  | _ => False
  end.
Proof.
  intros Hin. apply list_elem_of_In, list_elem_of_lookup in Hin as [i Hi].
  rewrite child_props_lookup in Hi.
  destruct (entries (data p) !! i) as [kv|] eqn:E; [|discriminate].
  injection Hi as <-. simpl.
  destruct (data p) as [| |b|n|s|items|es]; simpl in E;
    try (rewrite lookup_nil in E; discriminate).
  - rewrite mapi_from_lookup in E.
    destruct (items !! i) as [x|] eqn:Ex; [|discriminate].
    injection E as <-. simpl. eapply lookup_In, Ex.
  - apply in_map. eapply lookup_In, E.
Qed.

(** What [mount] builds is a tree that React can hold. *)
Lemma mounted_from_mount (d : value) :
  forall nm lv co,
    mounted_from {| name := nm; data := d; level := lv; collapsed := co |}
                 (mount {| name := nm; data := d; level := lv; collapsed := co |}).
Proof.
  induction d as [| |b|n|s|items IH|es IH] using value_ind'; intros nm lv co;
    rewrite mount_eq; apply mounted_from_eq; (split; [reflexivity|]);
    destruct (init_open _); try reflexivity;
    try (unfold child_props; simpl; constructor).
  - apply Forall2_same_length_lookup. split.
    + rewrite length_map. reflexivity.
    + intros i cp k Hcp Hk. rewrite lookup_map, Hcp in Hk. injection Hk as <-.
      apply lookup_In, child_data_In in Hcp. simpl in Hcp.
      rewrite Forall_forall in IH. destruct cp as [cn cd cl cc].
      apply IH, list_elem_of_In, Hcp.
  - apply Forall2_same_length_lookup. split.
    + rewrite length_map. reflexivity.
    + intros i cp k Hcp Hk. rewrite lookup_map, Hcp in Hk. injection Hk as <-.
      apply lookup_In, child_data_In in Hcp. simpl in Hcp.
      apply in_map_iff in Hcp as (kv & Hkv & Hin).
      rewrite Forall_forall in IH. destruct cp as [cn cd cl cc].
      simpl in Hkv. subst cd. apply list_elem_of_In in Hin. apply (IH kv Hin).
Qed.

Lemma mounted_from_mount' (p : TreeProps) : mounted_from p (mount p).
Proof. destruct p. apply mounted_from_mount. Qed.

(** A toggle keeps it so. *)
Lemma mounted_from_toggle (path : list nat) :
  forall p f, mounted_from p f -> mounted_from p (toggle path f).
Proof.
  induction path as [|i path IH]; intros p [q o kids] Hm;
    apply mounted_from_eq in Hm as [-> Hkids]; cbn [toggle].
  - destruct (isArray (data p) || isObject (data p)).
    + apply mounted_from_eq. split; [reflexivity|].
      destruct o; simpl; [reflexivity|].
      apply Forall2_same_length_lookup. split.
      * rewrite length_map. reflexivity.
      * intros j cp k Hcp Hk. rewrite lookup_map, Hcp in Hk. injection Hk as <-.
        apply mounted_from_mount'.
    + apply mounted_from_eq. auto.
  - apply mounted_from_eq. split; [reflexivity|]. destruct o.
    + apply Forall2_same_length_lookup.
      pose proof (Forall2_length _ _ _ Hkids) as Hlen. split.
      * rewrite length_alter. exact Hlen.
      * intros j cp k Hcp Hk.
        destruct (decide (i = j)) as [<-|Hne].
        -- rewrite list_lookup_alter_eq in Hk.
           destruct (kids !! i) as [k0|] eqn:E; [|discriminate].
           injection Hk as <-. apply IH.
           eapply Forall2_lookup_lr; eauto.
        -- rewrite list_lookup_alter_ne in Hk by exact Hne.
           eapply Forall2_lookup_lr; eauto.
    + subst kids. reflexivity.
Qed.

Lemma mounted_from_toggles (paths : list (list nat)) :
  forall p f, mounted_from p f ->
              mounted_from p (fold_left (fun f path => toggle path f) paths f).
Proof.
  induction paths as [|path paths IH]; intros p f Hm; simpl; [exact Hm|].
  apply IH, mounted_from_toggle, Hm.
Qed.

Lemma mounted_from_node_at (path : list nat) :
  forall p f pr o kids,
    mounted_from p f ->
    node_at path f = Some (Node pr o kids) ->
    entry_at path (name p) (data p) = Some (name pr, data pr)
    /\ level_of pr = level_of p + Z.of_nat (length path).
Proof.
  induction path as [|i path IH]; intros p [q o0 ks] pr o kids Hm Hn;
    apply mounted_from_eq in Hm as [-> Hks]; cbn [node_at] in Hn.
  - injection Hn as <- <- <-. simpl. split; [reflexivity | lia].
  - destruct (ks !! i) as [k|] eqn:Hk; [|discriminate].
    destruct o0; [|subst ks; rewrite lookup_nil in Hk; discriminate].
    destruct (Forall2_lookup_r _ _ _ _ _ Hks Hk) as (cp & Hcp & Hmk).
    rewrite child_props_lookup in Hcp.
    destruct (entries (data p) !! i) as [kv|] eqn:E; [|discriminate].
    injection Hcp as <-.
    destruct (IH _ _ _ _ _ Hmk Hn) as [Hent Hlv].
    cbn [entry_at]. rewrite E. split; [exact Hent|].
    rewrite Hlv. unfold level_of at 1. simpl. lia.
Qed.

(** X13.  After any sequence of toggles on the tree of a value, the node
    mounted at a path shows the part of the value that the path leads to,
    under the key of its entry, at the level that is the length of the
    path, and its row is indented by 14 for each step of the path. *)
Theorem node_shows_its_entry :
  forall (d : value) (toggles : list (list nat)) (path : list nat)
         (pr : TreeProps) (o : bool) (kids : list Fiber),
    node_at path
            (fold_left (fun f p => toggle p f) toggles
                       (mount {| name := None; data := d; level := None;
                                 collapsed := None |}))
    = Some (Node pr o kids) ->
    entry_at path None d = Some (name pr, data pr)
    /\ level_of pr = Z.of_nat (length path)
    /\ exists row rest,
         render (Node pr o kids) = row :: rest
         /\ row_margin row = 14 * Z.of_nat (length path).
Proof.
  intros d toggles path pr o kids Hn.
  eapply mounted_from_node_at in Hn as [Hent Hlv];
    [|apply mounted_from_toggles, mounted_from_mount'].
  simpl in Hent. change (level_of _ + _) with (0 + Z.of_nat (length path)) in Hlv.
  split; [exact Hent|]. split; [lia|].
  simpl. destruct (negb (isArray (data pr)) && negb (isObject (data pr)));
    do 2 eexists; (split; [reflexivity|]); simpl; lia.
Qed.

Lemma node_shows_its_entry_witness :
  entry_at [1%nat; 0%nat] None Sample.nested = Some (Some "c", JNum 2)
  /\ level_of {| name := Some "c"; data := JNum 2; level := Some 2;
                 collapsed := None |} = Z.of_nat (length [1%nat; 0%nat])
  /\ exists row rest,
       render (Node {| name := Some "c"; data := JNum 2; level := Some 2;
                       collapsed := None |} false [])
       = row :: rest
       /\ row_margin row = 14 * Z.of_nat (length [1%nat; 0%nat]).
Proof.
  apply (node_shows_its_entry Sample.nested [[1%nat]] [1%nat; 0%nat]
           {| name := Some "c"; data := JNum 2; level := Some 2;
              collapsed := None |} false []).
  reflexivity.
Defined.

Lemma alter_fixed {A} (g : A -> A) (l : list A) (i : nat) (x : A) :
  l !! i = Some x -> g x = x -> alter g i l = l.
Proof.
  revert i. induction l as [|y l IH]; intros [|i] Hi Hg; simpl in *;
    try discriminate.
  - injection Hi as ->. rewrite Hg. reflexivity.
  - f_equal. apply IH; assumption.
Qed.

Lemma alter_twice {A} (g : A -> A) (l : list A) (i : nat) :
  alter g i (alter g i l) = alter (fun x => g (g x)) i l.
Proof.
  revert i. induction l as [|y l IH]; intros [|i]; simpl; try reflexivity.
  f_equal. apply IH.
Qed.

(** X14.  Expanding a closed node and collapsing it again gives back the
    tree as it was, in every part. *)
Theorem toggle_closed_twice :
  forall (path : list nat) (f : Fiber) (pr : TreeProps),
    node_at path f = Some (Node pr false []) ->
    toggle path (toggle path f) = f.
Proof.
  induction path as [|i path IH]; intros [q o ks] pr Hn; cbn [node_at] in Hn.
  - injection Hn as -> -> ->. cbn [toggle].
    destruct (isArray (data pr) || isObject (data pr)) eqn:E.
    + cbn [toggle negb]. simpl. rewrite E. reflexivity.
    + cbn [toggle]. rewrite E. reflexivity.
  - destruct (ks !! i) as [k|] eqn:Hk; [|discriminate].
    cbn [toggle]. rewrite alter_twice. f_equal.
    apply (alter_fixed _ _ _ k Hk). eapply IH, Hn.
Qed.

Lemma toggle_closed_twice_witness :
  toggle [1%nat] (toggle [1%nat] (mount (Sample.root Sample.nested)))
  = mount (Sample.root Sample.nested).
Proof.
  apply (toggle_closed_twice [1%nat] _
           {| name := Some "b"; data := JObj [("c", JNum 2)];
              level := Some 1; collapsed := None |}).
  reflexivity.
Defined.

Lemma render_closed (p : TreeProps) : length (render (Node p false [])) = 1%nat.
Proof.
  simpl. destruct (negb (isArray (data p)) && negb (isObject (data p)));
    reflexivity.
Qed.

Lemma flat_map_closed (p : TreeProps) (cps : list TreeProps) :
  0 <= level_of p ->
  (forall cp, In cp cps -> In cp (child_props p)) ->
  length (flat_map render (map mount cps)) = length cps.
Proof.
  intros Hlv. induction cps as [|cp cps IH]; intros Hsub; [reflexivity|].
  simpl. rewrite length_app, IH by (intros c Hc; apply Hsub; right; exact Hc).
  rewrite (mount_child_closed p cp Hlv) by (apply Hsub; left; reflexivity).
  rewrite render_closed. reflexivity.
Qed.

(** X15.  The first render of a result is lazy: a leaf is one row, and an
    array or object is its own row and one row for each of its entries,
    however deep the value is; with [collapsed] it is the one row. *)
Theorem first_render_rows :
  forall (d : value) (co : option bool),
    length (render (mount {| name := None; data := d; level := None;
                             collapsed := co |}))
    = if (isArray d || isObject d)
         && negb (match co with Some true => true | _ => false end)
      then S (length (entries d)) else 1%nat.
Proof.
  intros d co. rewrite mount_eq.
  set (p := {| name := None; data := d; level := None; collapsed := co |}).
  assert (Hopen : init_open p
                  = negb (match co with Some true => true | _ => false end))
    by (destruct co as [[]|]; reflexivity).
  rewrite Hopen. cbn [render]. change (data p) with d.
  destruct (isArray d || isObject d) eqn:Hbr.
  - assert (Hleaf : negb (isArray d) && negb (isObject d) = false)
      by (destruct (isArray d), (isObject d); simpl in *; congruence).
    rewrite Hleaf.
    destruct (negb _); [|reflexivity]. simpl. f_equal.
    rewrite (flat_map_closed p) by (try reflexivity; auto).
    unfold child_props. rewrite length_map. reflexivity.
  - assert (Hleaf : negb (isArray d) && negb (isObject d) = true)
      by (destruct (isArray d), (isObject d); simpl in *; congruence).
    rewrite Hleaf. reflexivity.
Qed.

(** X16.  The children of an array are named by their positions, in
    decimal, so that no two of them have the same key. *)
Theorem array_children_keys :
  forall (items : list value),
    (forall i, entries (JArr items) !! i
               = (fun x => (JS.toString (Z.of_nat i), x)) <$> items !! i)
    /\ NoDup (map fst (entries (JArr items))).
Proof.
  intros items.
  assert (Hlook : forall i, entries (JArr items) !! i
                   = (fun x => (JS.toString (Z.of_nat i), x)) <$> items !! i).
  { intros i. simpl. rewrite mapi_from_lookup. reflexivity. }
  split; [exact Hlook|].
  apply NoDup_alt. intros i j k Hi Hj.
  rewrite lookup_map, Hlook in Hi. rewrite lookup_map, Hlook in Hj.
  destruct (items !! i); [|discriminate]. destruct (items !! j); [|discriminate].
  simpl in Hi, Hj. injection Hi as <-. injection Hj as Hj.
  apply toString_inj in Hj. lia.
Qed.

(** * Further properties: the button and the counts *)

Lemma space_width_le (s : string) (w : nat) :
  Platform.space_width s = S w -> (S w <= String.length s)%nat.
Proof.
  unfold Platform.space_width.
  destruct (List.find _ _) as [cp|] eqn:E; [|discriminate].
  apply List.find_some in E as [_ E]. apply startsWith_app in E as [post ->].
  intros H. rewrite length_append. lia.
Qed.

(** The white space counted at the end of a text is the whole text exactly
    when the text is white space only. *)
Lemma trailing_all_space (s : string) :
  forall skip acc : nat,
    (all_space_from skip s = true ->
     Platform.trailing skip acc s = (acc + (String.length s - skip))%nat)
    /\ (all_space_from skip s = false ->
        (Platform.trailing skip acc s < String.length s - skip)%nat).
Proof.
  induction s as [|c s IH]; intros skip acc.
  - simpl. split; [intros _; lia | discriminate].
  - cbn [all_space_from Platform.trailing String.length].
    destruct skip as [|k].
    + destruct (Platform.space_width (String c s)) as [|w] eqn:E.
      * split; [discriminate|]. intros _.
        destruct (all_space_from 0 s) eqn:F.
        -- rewrite (proj1 (IH 0%nat 0%nat) F). lia.
        -- pose proof (proj2 (IH 0%nat 0%nat) F). lia.
      * apply space_width_le in E. simpl in E.
        split; intros F.
        -- rewrite (proj1 (IH w (acc + S w)%nat) F). lia.
        -- pose proof (proj2 (IH w (acc + S w)%nat) F). lia.
    + split; intros F.
      * rewrite (proj1 (IH k acc) F). lia.
      * pose proof (proj2 (IH k acc) F). lia.
Qed.

Lemma take_empty (k : nat) (s : string) :
  JS.take k s = "" <-> k = 0%nat \/ s = "".
Proof.
  destruct k as [|k], s as [|c s]; simpl; split; auto; try discriminate.
  intros [H|H]; discriminate H.
Qed.

Lemma trimEnd_empty (t : string) :
  Platform.trimEnd t = "" <-> all_space t = true.
Proof.
  unfold Platform.trimEnd, all_space. rewrite take_empty.
  destruct (trailing_all_space t 0 0) as [Hall Hnot].
  destruct (all_space_from 0 t) eqn:E.
  - rewrite (Hall eq_refl). split; [reflexivity|]. intros _. left. lia.
  - specialize (Hnot eq_refl). split; [|discriminate].
    intros [H| ->]; [lia | discriminate E].
Qed.

Lemma all_space_trimStart (s : string) :
  forall skip : nat,
    all_space_from 0 (Platform.trimStart_from skip s) = all_space_from skip s.
Proof.
  induction s as [|c s IH]; intros skip; [destruct skip; reflexivity|].
  cbn [Platform.trimStart_from].
  destruct skip as [|k].
  - destruct (Platform.space_width (String c s)) as [|w] eqn:E.
    + reflexivity.
    + rewrite IH. cbn [all_space_from]. rewrite E. reflexivity.
  - rewrite IH. reflexivity.
Qed.

Lemma trim_empty (s : string) : Platform.trim s = "" <-> all_space s = true.
Proof.
  unfold Platform.trim, Platform.trimStart. rewrite trimEnd_empty.
  unfold all_space. rewrite all_space_trimStart. tauto.
Qed.

(** [trim] and the white space of Unicode. *)
Example trim_examples :
  Platform.trim (Unicode.encode [0x20; 0x9; 0x61; 0x20; 0x62; 0xA; 0xD]%N)
  = "a b"
  /\ Platform.trim (Unicode.encode [0xA0; 0x78; 0x3000; 0xFEFF]%N) = "x"
  /\ Platform.trim "à" = "à"
  /\ Platform.trim " é€ " = "é€"
  /\ all_space (Unicode.encode [0xA0; 0x1680; 0x2003; 0x200A; 0x2028; 0x2029;
                                 0x202F; 0x205F; 0x3000; 0xFEFF; 0x20; 0x9]%N)
     = true
  /\ all_space "" = true
  /\ all_space (Unicode.encode [0x200B]%N) = false
  /\ all_space (Unicode.encode [0x85]%N) = false
  /\ all_space (Unicode.encode [0x180E]%N) = false.
Proof. repeat split; vm_compute; reflexivity. Qed.

(** X17.  The button is disabled exactly while [loading] is set or the URL
    field holds nothing but white space, so that a call taken from a click
    always has a URL with a character that is not white space. *)
Theorem button_needs_url :
  forall (JSON_parse : string -> ParseOutcome)
         (StringToNumber : string -> JS.number)
         (st : App) (url0 : string) (method0 : Method) (timeoutMs now : Z),
    button_disabled (loading st) url0 = loading st || all_space url0
    /\ (forall st',
          click_step JSON_parse StringToNumber st
                     (Invoke url0 method0 timeoutMs now) = Some st' ->
          all_space url0 = false /\ loading st = false
          /\ inv_url <$> pending st' !! created st = Some url0).
Proof.
  intros JSON_parse StringToNumber st url0 method0 timeoutMs now.
  assert (Hb : button_disabled (loading st) url0 = loading st || all_space url0).
  { unfold button_disabled. f_equal.
    destruct (all_space url0) eqn:E.
    - apply trim_empty in E. rewrite E. reflexivity.
    - destruct (Platform.trim url0) eqn:Et; [|reflexivity].
      apply trim_empty in Et. congruence. }
  split; [exact Hb|].
  intros st' Hstep. unfold click_step in Hstep. rewrite Hb in Hstep.
  destruct (loading st); [discriminate|].
  destruct (all_space url0); [discriminate|]. simpl in Hstep.
  injection Hstep as <-. rewrite analyze_start_eq. simpl.
  rewrite lookup_insert_eq. auto.
Qed.

(** X18.  After any sequence of toggles, an open node has one mounted child
    for each entry of its value, and the count shown beside its label is
    that number. *)
Theorem open_node_count :
  forall (d : value) (toggles : list (list nat)) (path : list nat)
         (pr : TreeProps) (kids : list Fiber),
    node_at path
            (fold_left (fun f p => toggle p f) toggles
                       (mount {| name := None; data := d; level := None;
                                 collapsed := None |}))
    = Some (Node pr true kids) ->
    length kids = length (entries (data pr))
    /\ meta_of pr
       = (if isArray (data pr) then "  [" else "  {")
           ++ JS.toString (Z.of_nat (length kids))
           ++ (if isArray (data pr) then "]" else "}").
Proof.
  intros d toggles path pr kids Hn.
  assert (Hm : mounted_from pr (Node pr true kids)).
  { pose proof (mounted_from_toggles toggles _ _
                  (mounted_from_mount' {| name := None; data := d;
                                          level := None; collapsed := None |}))
      as Hroot.
    revert Hn Hroot. generalize (fold_left (fun f p => toggle p f) toggles
      (mount {| name := None; data := d; level := None; collapsed := None |})).
    generalize {| name := None; data := d; level := None; collapsed := None |}.
    induction path as [|i path IH]; intros p [q o ks] Hn Hroot;
      cbn [node_at] in Hn.
    - injection Hn as -> -> ->.
      apply mounted_from_eq in Hroot as [-> Hks]. apply mounted_from_eq. auto.
    - destruct (ks !! i) as [k|] eqn:Hk; [|discriminate].
      apply mounted_from_eq in Hroot as [-> Hks].
      destruct o; [|subst ks; rewrite lookup_nil in Hk; discriminate].
      destruct (Forall2_lookup_r _ _ _ _ _ Hks Hk) as (cp & _ & Hmk).
      exact (IH cp k Hn Hmk). }
  apply mounted_from_eq in Hm as [_ Hks]. apply Forall2_length in Hks.
  assert (Hlen : length kids = length (entries (data pr))).
  { rewrite <- Hks. unfold child_props. apply length_map. }
  split; [exact Hlen|]. unfold meta_of. rewrite Hlen.
  destruct (isArray (data pr)); reflexivity.
Qed.

Lemma open_node_count_witness :
  length [Node {| name := Some "c"; data := JNum 2; level := Some 2;
                  collapsed := None |} false []]
  = length (entries (JObj [("c", JNum 2)]))
  /\ meta_of {| name := Some "b"; data := JObj [("c", JNum 2)];
                level := Some 1; collapsed := None |}
     = "  {" ++ JS.toString (Z.of_nat 1) ++ "}".
Proof.
  apply (open_node_count Sample.nested [[1%nat]] [1%nat]
           {| name := Some "b"; data := JObj [("c", JNum 2)];
              level := Some 1; collapsed := None |}
           [Node {| name := Some "c"; data := JNum 2; level := Some 2;
                    collapsed := None |} false []]).
  reflexivity.
Defined.
